(** * hub: the argument-rewriting rules of [remote] and [apply]

    A shallow embedding of the two rewrite rules of package [commands]
    ([remote add|set-url] and [apply]) together with the pieces of the Go
    library they call, of the listing of [issue], and of the configuration
    lookups of package [git], with their properties. Go strings are byte
    strings: a [string] here is the sequence of its bytes. *)

From Stdlib Require Import String Ascii List Bool ZArith Lia.
Import ListNotations.
Open Scope string_scope.
Open Scope Z_scope.

(** ** Bytes and character classes *)

Definition between (lo hi : N) (c : ascii) : bool :=
  let n := N_of_ascii c in (N.leb lo n && N.leb n hi)%bool.

(** [\d], and [0-9] inside a bracket expression. *)
Definition isDigit (c : ascii) : bool := between 48 57 c.

(** [a-zA-Z0-9]. *)
Definition isAlnum (c : ascii) : bool :=
  (between 97 122 c || between 65 90 c || isDigit c)%bool.

(** [\w] is the ASCII class [0-9A-Za-z_]. *)
Definition isWord (c : ascii) : bool := (isAlnum c || Ascii.eqb c "_")%bool.

Definition isSlash (c : ascii) : bool := Ascii.eqb c "/".

Definition isNewline (c : ascii) : bool := Ascii.eqb c "010".

(** ** Byte strings *)

Fixpoint forallb_s (f : ascii -> bool) (s : string) : bool :=
  match s with
  | EmptyString => true
  | String c r => (f c && forallb_s f r)%bool
  end.

Fixpoint existsb_s (f : ascii -> bool) (s : string) : bool :=
  match s with
  | EmptyString => false
  | String c r => (f c || existsb_s f r)%bool
  end.

(** [cut p s] is what follows [p] in [s] when [s] starts with [p]. *)
Fixpoint cut (p s : string) : option string :=
  match p, s with
  | EmptyString, _ => Some s
  | String a p', String b s' => if Ascii.eqb a b then cut p' s' else None
  | String _ _, EmptyString => None
  end.

Module Strings.

(** strings.HasPrefix *)
Definition HasPrefix (s p : string) : bool :=
  match cut p s with Some _ => true | None => false end.

End Strings.

(** ** Package [path/filepath] on a Unix system

    The separator is '/' and there are no volume names. *)

Module Filepath.

(** The part of [s] after its last separator; [s] itself when it has
    none. *)
Fixpoint lastElem (s : string) : string :=
  match s with
  | EmptyString => EmptyString
  | String c r =>
      if existsb_s isSlash r then lastElem r
      else if isSlash c then r else s
  end.

(** [s] without its trailing separators. *)
Fixpoint trimSlashes (s : string) : string :=
  match s with
  | EmptyString => EmptyString
  | String c r =>
      if forallb_s isSlash r
      then (if isSlash c then EmptyString else String c EmptyString)
      else String c (trimSlashes r)
  end.

(** The suffix of [s] that starts at its last dot, [""] without a dot. *)
Fixpoint fromLastDot (s : string) : string :=
  match s with
  | EmptyString => EmptyString
  | String c r =>
      if existsb_s (Ascii.eqb ".") r then fromLastDot r
      else if Ascii.eqb c "." then s else EmptyString
  end.

(** filepath.Ext: the suffix beginning at the final dot in the final
    element of the path, empty if there is no dot. *)
Definition Ext (path : string) : string := fromLastDot (lastElem path).

(** filepath.Base: the last element of the path, trailing separators
    removed first; "." for the empty path, "/" for a path of
    separators only. *)
Definition Base (path : string) : string :=
  match path with
  | EmptyString => "."
  | _ =>
      match lastElem (trimSlashes path) with
      | EmptyString => "/"
      | e => e
      end
  end.

(** The elements of a path: the maximal runs between separators, the
    empty ones included. *)
Fixpoint elements (s : string) : list string :=
  match s with
  | EmptyString => [EmptyString]
  | String c r =>
      if isSlash c then EmptyString :: elements r
      else match elements r with
           | e :: es => String c e :: es
           | [] => [String c EmptyString]
           end
  end.

(** One step of Clean's loop on the element [e]. [out] holds the
    elements written so far, last one first; [pinned] counts the leading
    ".." elements of an unrooted path, which cannot be removed. *)
Definition cleanStep (rooted : bool) (st : list string * nat) (e : string)
  : list string * nat :=
  let '(out, pinned) := st in
  if (e =? "")%string then st
  else if (e =? ".")%string then st
  else if (e =? "..")%string then
    if (pinned <? length out)%nat then (tl out, pinned)
    else if rooted then st
    else (".." :: out, S pinned)
  else (e :: out, pinned).

Fixpoint joinElements (es : list string) : string :=
  match es with
  | [] => EmptyString
  | [e] => e
  | e :: es' => e ++ "/" ++ joinElements es'
  end.

(** filepath.Clean: the shortest path equivalent to [path] by purely
    lexical processing. *)
Definition Clean (path : string) : string :=
  match path with
  | EmptyString => "."
  | String c _ =>
      let rooted := isSlash c in
      let out := fst (fold_left (cleanStep rooted) (elements path) ([], 0%nat)) in
      match rooted, out with
      | false, [] => "."
      | false, _ => joinElements (rev out)
      | true, _ => String "/" (joinElements (rev out))
      end
  end.

(** filepath.Join: the elements from the first non-empty one on, joined
    with separators and cleaned; [""] when all are empty. *)
Fixpoint Join (elem : list string) : string :=
  match elem with
  | [] => EmptyString
  | e :: rest =>
      if (e =? "")%string then Join rest
      else Clean (joinElements elem)
  end.

End Filepath.

(** ** The regular expressions of the two rules

    Each expression of the source is written out as the backtracking
    matcher it denotes (Go's leftmost-first semantics). *)

(** [x?] followed by [k]: first with [x], then without. *)
Definition optional {A : Type} (x : string) (k : bool -> string -> option A)
  (s : string) : option A :=
  match (match cut x s with Some r => k true r | None => None end) with
  | Some y => Some y
  | None => k false s
  end.

(** urlRegexp, [^https?://(gist\.)?github\.com/]: [Some] of the text of
    group 1 (empty when the group takes no part) on a match, as
    FindStringSubmatch(url)[1]; [None] when MatchString is false. *)
Definition urlRegexp (url : string) : option string :=
  match cut "http" url with
  | None => None
  | Some r =>
      optional "s" (fun _ r1 =>
        match cut "://" r1 with
        | None => None
        | Some r2 =>
            optional "gist." (fun g r3 =>
              if Strings.HasPrefix r3 "github.com/"
              then Some (if g then "gist." else "")
              else None) r2
        end) r
  end.

Definition urlMatch (url : string) : bool :=
  match urlRegexp url with Some _ => true | None => false end.

(** fragmentRegexp.ReplaceAllString(url, ""), for [#.+]: a '#' followed by
    a byte other than newline starts a match that runs to the end of the
    line ([.] does not match a newline); the search resumes there. *)
Fixpoint stripFragment (inMatch : bool) (s : string) : string :=
  match s with
  | EmptyString => EmptyString
  | String c r =>
      if inMatch then
        if isNewline c then String c (stripFragment false r)
        else stripFragment true r
      else
        let opens :=
          match r with
          | String d _ => (Ascii.eqb c "#" && negb (isNewline d))%bool
          | EmptyString => false
          end in
        if opens then stripFragment true r
        else String c (stripFragment false r)
  end.

(** The longest prefix of digits, and what follows it. *)
Fixpoint spanDigits (s : string) : string * string :=
  match s with
  | EmptyString => (EmptyString, EmptyString)
  | String c r =>
      if isDigit c then let '(ds, r') := spanDigits r in (String c ds, r')
      else (EmptyString, s)
  end.

(** pullRegexp anchored at the start of [s]: [/pull/\d+] then [/\w*$];
    gives group 1. *)
Definition pullAt (s : string) : option string :=
  match cut "/pull/" s with
  | None => None
  | Some r =>
      let '(ds, r') := spanDigits r in
      if (ds =? "")%string then None
      else match r' with
           | String c w =>
               if (isSlash c && forallb_s isWord w)%bool
               then Some ("/pull/" ++ ds) else None
           | EmptyString => None
           end
  end.

(** pullRegexp, [(/pull/\d+)/\w*$]: the leftmost match, as the text
    before it and group 1. The match runs to the end of the text. *)
Fixpoint pullRegexp (s : string) : option (string * string) :=
  match pullAt s with
  | Some pull => Some (EmptyString, pull)
  | None =>
      match s with
      | EmptyString => None
      | String c r =>
          match pullRegexp r with
          | Some (before, pull) => Some (String c before, pull)
          | None => None
          end
      end
  end.

(** Modelled from the spec: the constants OwnerRe and NameRe are declared
    in a file of package [commands] that is not among the sources; the spec
    calls them the owner-name character class. They are taken as hub
    declares them, [[a-zA-Z0-9][a-zA-Z0-9-]*] and [[\w.][\w.-]*], each as
    the test that the whole string matches. *)
Definition OwnerRe (s : string) : bool :=
  match s with
  | EmptyString => false
  | String c r =>
      (isAlnum c && forallb_s (fun d => isAlnum d || Ascii.eqb d "-") r)%bool
  end.

Definition NameRe (s : string) : bool :=
  match s with
  | EmptyString => false
  | String c r =>
      ((isWord c || Ascii.eqb c ".")
       && forallb_s (fun d => isWord d || Ascii.eqb d "." || Ascii.eqb d "-") r)%bool
  end.

(** [s] split at its first '/'. *)
Fixpoint cutSlash (s : string) : option (string * string) :=
  match s with
  | EmptyString => None
  | String c r =>
      if isSlash c then Some (EmptyString, r)
      else match cutSlash r with
           | Some (a, b) => Some (String c a, b)
           | None => None
           end
  end.

(** parseRepoNameOwner: [^(OwnerRe)$], then [^(OwnerRe)\/(NameRe)$]. No
    owner holds a '/', so the second expression can only split the text
    at its first '/'. *)
Definition parseRepoNameOwner (nameWithOwner : string) : string * string :=
  if OwnerRe nameWithOwner then (nameWithOwner, EmptyString)
  else match cutSlash nameWithOwner with
       | Some (owner, name) =>
           if (OwnerRe owner && NameRe name)%bool then (owner, name)
           else (EmptyString, EmptyString)
       | None => (EmptyString, EmptyString)
       end.

(** ** The argument list *)

(** A queued command: the executable followed by its arguments. *)
Definition Cmd := list string.

(** Modelled from the spec: the type Args and its methods are declared in
    a file of package [commands] that is not among the sources. Per the
    spec's ArgumentList: the subcommand name, the ordered parameters, the
    dry-run flag, and the prerequisite commands in enqueue order. *)
Record Args := mkArgs {
  Command : string;
  Params : list string;
  beforeChain : list Cmd;
  Noop : bool
}.

Definition setParams (a : Args) (ps : list string) : Args :=
  {| Command := Command a; Params := ps;
     beforeChain := beforeChain a; Noop := Noop a |}.

Fixpoint indexFrom (i : Z) (v : string) (l : list string) : Z :=
  match l with
  | [] => -1
  | p :: l' => if (p =? v)%string then i else indexFrom (i + 1) v l'
  end.

Fixpoint replaceNth (n : nat) (v : string) (l : list string) : list string :=
  match l, n with
  | [], _ => []
  | _ :: l', O => v :: l'
  | p :: l', S n' => p :: replaceNth n' v l'
  end.

Fixpoint removeNth (n : nat) (l : list string) : list string :=
  match l, n with
  | [], _ => []
  | _ :: l', O => l'
  | p :: l', S n' => p :: removeNth n' l'
  end.

Definition inBounds (i : Z) (l : list string) : bool :=
  ((0 <=? i) && (i <? Z.of_nat (length l)))%bool.

(** Modelled from the spec: isParamsEmpty, true iff no positional
    parameter remains. *)
Definition IsParamsEmpty (a : Args) : bool :=
  match Params a with [] => true | _ => false end.

(** Modelled from the spec: the number of parameters. *)
Definition ParamsSize (a : Args) : Z := Z.of_nat (length (Params a)).

(** Modelled from the spec: firstParam, the first positional parameter, or
    the empty value if none exist. *)
Definition FirstParam (a : Args) : string := hd EmptyString (Params a).

(** Modelled from the spec: lastParam, the last positional parameter, or
    the empty value if none exist. *)
Definition LastParam (a : Args) : string := last (Params a) EmptyString.

(** Modelled from the spec: the tokens the user wrote, that is the
    parameters that are not flags (a flag starts with '-'). *)
Definition Words (a : Args) : list string :=
  filter (fun p => negb (Strings.HasPrefix p "-")) (Params a).

(** Modelled from the spec: indexOfParam, the current position of the
    first parameter equal to [v], or -1 for not found. *)
Definition IndexOfParam (a : Args) (v : string) : Z := indexFrom 0 v (Params a).

(** Modelled from the spec: replaceParam, which keeps the other elements
    and their order. Out of range (not the case at any call of the two
    rules) the list is left as it is. *)
Definition ReplaceParam (a : Args) (i : Z) (v : string) : Args :=
  if inBounds i (Params a)
  then setParams a (replaceNth (Z.to_nat i) v (Params a)) else a.

(** Modelled from the spec: removeParam, as replaceParam. *)
Definition RemoveParam (a : Args) (i : Z) : Args :=
  if inBounds i (Params a)
  then setParams a (removeNth (Z.to_nat i) (Params a)) else a.

(** Modelled from the spec: appendParams. *)
Definition AppendParams (a : Args) (vs : list string) : Args :=
  setParams a (Params a ++ vs).

(** Modelled from the spec: insertPrerequisite, which appends a command to
    the queue that runs before the main command. *)
Definition Before (a : Args) (c : Cmd) : Args :=
  {| Command := Command a; Params := Params a;
     beforeChain := beforeChain a ++ [c]; Noop := Noop a |}.

(** ** What the rules read from outside the package *)

Definition error := string.

(** A Go result pair [(value, err)]. *)
Inductive result (A : Type) : Type :=
| ok (a : A)
| failed (e : error).
Arguments ok {A} a.
Arguments failed {A} e.

(** github.Project *)
Record Project := mkProject {
  Name : string;
  Owner : string;
  Host : string
}.

(** The local repository, as far as the rule asks it: MainProject(). *)
Record GitHubRepo := mkRepo {
  MainProject : result Project
}.

(** The configured host, as far as the rule reads it. *)
Record HostConfig := mkHost {
  User : string
}.

(** The collaborators of the rules, none of them among the sources: the
    local repository and working directory, the configuration, package
    [github]'s project constructor and URL builder, and the library and
    build constants. A rule only reads them. *)
Record Context := mkContext {
  LocalRepo : result GitHubRepo;          (* github.LocalRepo() *)
  RootDirName : result string;            (* git.RootDirName() *)
  DefaultHost : result HostConfig;        (* github.CurrentConfig().DefaultHost() *)
  FormatError : string -> error -> error; (* github.FormatError *)
  NewProject : string -> string -> string -> Project; (* github.NewProject(owner, name, host) *)
  GitURL : Project -> string -> string -> bool -> string; (* project.GitURL(name, owner, isSSH) *)
  GitHubHost : string;                    (* github.GitHubHost *)
  ToLower : string -> string;             (* strings.ToLower *)
  TempDir : string;                       (* os.TempDir() *)
  Version : string                        (* commands.Version *)
}.

(** ** Running a rule

    A rule works on the one argument list it is given and either returns
    or stops the process through utils.Check. Both outcomes carry the
    argument list as it is at that point. *)
Inductive Res (A : Type) : Type :=
| Ok (a : A) (args : Args)
| Fatal (e : error) (args : Args).
Arguments Ok {A} a args.
Arguments Fatal {A} e args.

Definition M (A : Type) : Type := Args -> Res A.

Definition ret {A : Type} (a : A) : M A := fun args => Ok a args.

Definition bind {A B : Type} (m : M A) (k : A -> M B) : M B :=
  fun args =>
    match m args with
    | Ok a args' => k a args'
    | Fatal e args' => Fatal e args'
    end.

Notation "x <- m ;; k" := (bind m (fun x => k))
  (at level 61, m at next level, right associativity).
Notation "' p <- m ;; k" := (bind m (fun x => let p := x in k))
  (at level 61, p pattern, m at next level, right associativity).
Notation "m ;; k" := (bind m (fun _ => k))
  (at level 61, right associativity).

(** Reading the argument list. *)
Definition ask {A : Type} (f : Args -> A) : M A := fun args => Ok (f args) args.

(** Changing the argument list. *)
Definition update (f : Args -> Args) : M unit := fun args => Ok tt (f args).

(** utils.Check: stop on an error. *)
Definition Check {A : Type} (r : result A) : M A :=
  fun args =>
    match r with
    | ok a => Ok a args
    | failed e => Fatal e args
    end.

(** ** The rules *)

Section Rules.

Variable ctx : Context.

(** parseRemotePrivateFlag *)
Definition parseRemotePrivateFlag : M bool :=
  i <- ask (fun args => IndexOfParam args "-p") ;;
  if negb (i =? -1) then
    update (fun args => RemoveParam args i) ;;
    ret true
  else ret false.

(** The locals of transformRemoteArgs when it reaches the call of
    GitURL: the owner, the name, the project and the visibility. *)
Record Target := mkTarget {
  t_owner : string;
  t_name : string;
  t_project : Project;
  t_isPrivate : bool
}.

(** transformRemoteArgs up to the construction of the project; [None]
    is the early return on an empty owner. *)
Definition remoteTarget : M (option Target) :=
  ownerWithName <- ask LastParam ;;
  let '(owner, name) := parseRepoNameOwner ownerWithName in
  if (owner =? "")%string then ret None
  else
    localRepo <- Check (LocalRepo ctx) ;;
    '(repoName, host, name) <-
      (if (name =? "")%string then
         match MainProject localRepo with
         | ok project => ret (Name project, Host project, Name project)
         | failed _ =>
             repoName <- Check (RootDirName ctx) ;;
             ret (repoName, EmptyString, repoName)
         end
       else ret (EmptyString, EmptyString, name)) ;;
    hostConfig <-
      match DefaultHost ctx with
      | ok h => ret h
      | failed e => Check (failed (FormatError ctx "adding remote" e))
      end ;;
    words <- ask Words ;;
    isPrivate <- parseRemotePrivateFlag ;;
    '(owner, name) <-
      (if ((length words =? 2)%nat && (nth 1 words "" =? "origin")%string)%bool
       then
         (* Origin special case triggers default user/repo *)
         ret (User hostConfig, repoName)
       else if (length words =? 2)%nat then
         idx <- ask (fun args => IndexOfParam args (nth 1 words "")) ;;
         (if negb (idx =? -1)
          then update (fun args => ReplaceParam args idx owner)
          else ret tt) ;;
         ret (owner, name)
       else
         update (fun args => RemoveParam args (ParamsSize args - 1)) ;;
         ret (owner, name)) ;;
    let '(owner, isPrivate) :=
      if (ToLower ctx owner =? ToLower ctx (User hostConfig))%string
      then (User hostConfig, true)
      else (owner, isPrivate) in
    let project := NewProject ctx owner name host in
    (* for GitHub Enterprise *)
    let isPrivate := (isPrivate || negb (Host project =? GitHubHost ctx)%string)%bool in
    ret (Some (mkTarget owner name project isPrivate)).

(** transformRemoteArgs *)
Definition transformRemoteArgs : M unit :=
  t <- remoteTarget ;;
  match t with
  | None => ret tt
  | Some t =>
      let url := GitURL ctx (t_project t) (t_name t) (t_owner t) (t_isPrivate t) in
      update (fun args => AppendParams args [url])
  end.

(** remote *)
Definition remote : M unit :=
  fun args =>
    if (negb (IsParamsEmpty args)
        && ((FirstParam args =? "add")%string
            || (FirstParam args =? "set-url")%string))%bool
    then transformRemoteArgs args
    else ret tt args.

(** The body of the loop of transformApplyArgs for the parameter [url]
    that matched: the fetched URL and the file it is written to. *)
Definition patchOf (url : string) : string * string :=
  let gist :=
    match urlRegexp url with
    | Some g => (g =? "gist.")%string
    | None => false
    end in
  let url := stripFragment false url in
  let url :=
    if negb gist then
      match pullRegexp url with
      | Some (before, pull) => before ++ pull
      | None => url
      end
    else url in
  let ext := if gist then ".txt" else ".patch" in
  let url := if (Filepath.Ext url =? ext)%string then url else url ++ ext in
  let prefix := if gist then "gist-" else "" in
  let patchFile := Filepath.Join [TempDir ctx; prefix ++ Filepath.Base url] in
  (url, patchFile).

(** transformApplyArgs: the loop stops at the first parameter that
    matches. [url] is one of the parameters, so IndexOfParam finds it and
    the assignment to [args.Params[idx]] is in range. *)
Definition transformApplyArgs (args : Args) : Args :=
  match find urlMatch (Params args) with
  | None => args
  | Some url =>
      let idx := IndexOfParam args url in
      let '(url, patchFile) := patchOf url in
      let args :=
        Before args ["curl"; "-#LA"; "gh " ++ Version ctx; url; "-o"; patchFile] in
      setParams args (replaceNth (Z.to_nat idx) patchFile (Params args))
  end.

(** apply *)
Definition apply (args : Args) : Args :=
  if negb (IsParamsEmpty args) then transformApplyArgs args else args.

End Rules.

(** ** A sample context

    The user [jingweno] on github.com, in a clone of [jingweno/gh], with
    URLs in the shape of the examples of the help text. *)

Definition lowerByte (c : ascii) : ascii :=
  if between 65 90 c then ascii_of_N (N_of_ascii c + 32) else c.

Fixpoint asciiLower (s : string) : string :=
  match s with
  | EmptyString => EmptyString
  | String c r => String (lowerByte c) (asciiLower r)
  end.

Definition sampleProject (owner name host : string) : Project :=
  mkProject name owner (if (host =? "")%string then "github.com" else host).

Definition sampleURL (p : Project) (name owner : string) (isSSH : bool) : string :=
  if isSSH then "git@" ++ Host p ++ ":" ++ owner ++ "/" ++ name ++ ".git"
  else "git://" ++ Host p ++ "/" ++ owner ++ "/" ++ name ++ ".git".

Definition sample : Context :=
  {| LocalRepo := ok (mkRepo (ok (mkProject "gh" "jingweno" "github.com")));
     RootDirName := ok "gh";
     DefaultHost := ok (mkHost "jingweno");
     FormatError := fun action e => "Error " ++ action ++ ": " ++ e;
     NewProject := sampleProject;
     GitURL := sampleURL;
     GitHubHost := "github.com";
     ToLower := asciiLower;
     TempDir := "/tmp";
     Version := "2.2.0" |}.

Definition cmdline (command : string) (params : list string) : Args :=
  mkArgs command params [] false.

(** The two commands and their [Run] functions ([cmdRemote], [cmdApply]). *)
Inductive Rule : Type := cmdRemote | cmdApply.

Definition Run (ctx : Context) (c : Rule) : M unit :=
  match c with
  | cmdRemote => remote ctx
  | cmdApply => fun args => Ok tt (apply ctx args)
  end.

(** ** The grammars of the trailing parameter *)

Definition bareOwner (s : string) : Prop := OwnerRe s = true.

Definition ownerSlashName (s : string) : Prop :=
  exists o n, s = o ++ "/" ++ n /\ OwnerRe o = true /\ NameRe n = true.

(** The first element equal to [v] taken out. *)
Fixpoint removeFirst (v : string) (l : list string) : list string :=
  match l with
  | [] => []
  | p :: l' => if (p =? v)%string then l' else p :: removeFirst v l'
  end.

Definition hasFlag (v : string) (l : list string) : bool :=
  existsb (String.eqb v) l.

(** The name and host transformRemoteArgs takes from the current
    repository when the trailing parameter names no repository: those of
    the main project, else the name of the root directory. *)
Definition currentRepo (ctx : Context) : option (string * string) :=
  match LocalRepo ctx with
  | failed _ => None
  | ok repo =>
      match MainProject repo with
      | ok project => Some (Name project, Host project)
      | failed _ =>
          match RootDirName ctx with
          | ok dir => Some (dir, EmptyString)
          | failed _ => None
          end
      end
  end.

(** The first element equal to [w] replaced by [v]. *)
Fixpoint replaceFirst (w v : string) (l : list string) : list string :=
  match l with
  | [] => []
  | p :: l' => if (p =? w)%string then v :: l' else p :: replaceFirst w v l'
  end.

(** The non-flag tokens are the sub-key and the literal [origin]. *)
Definition originCase (args : Args) : bool :=
  ((length (Words args) =? 2)%nat && (nth 1 (Words args) "" =? "origin")%string)%bool.

(** What transformRemoteArgs leaves of the parameters before it appends
    the URL, for the parsed owner [owner]: the first [-p] is taken out;
    then nothing more in the [origin] case, the second of two tokens gives
    way to the owner, and in every other case the trailing parameter is
    taken out. *)
Definition remoteParams (args : Args) (owner : string) : list string :=
  let ps := removeFirst "-p" (Params args) in
  if originCase args then ps
  else if (length (Words args) =? 2)%nat
       then replaceFirst (nth 1 (Words args) "") owner ps
       else removelast ps.

(** The name and host that go into the project, for the parsed name
    [name]: those of the current repository when the trailing parameter
    names no repository. [repoName] is the local of that name. *)
Definition resolves (ctx : Context) (name repoName host : string) : Prop :=
  if (name =? "")%string then currentRepo ctx = Some (repoName, host)
  else (exists repo, LocalRepo ctx = ok repo) /\ repoName = "" /\ host = "".

(** The number of separators in a string. *)
Fixpoint countSlash (s : string) : nat :=
  match s with
  | EmptyString => 0%nat
  | String c r => ((if isSlash c then 1 else 0) + countSlash r)%nat
  end.

(** A path element as Clean writes it: not empty, no separator. *)
Definition plainElement (e : string) : bool :=
  (negb (e =? "")%string && negb (existsb_s isSlash e))%bool.

(** The two extensions of the rule: a dot, then bytes that are neither a
    dot nor a separator, the last of them [z]. *)
Definition extension (ext : string) : Prop :=
  exists e z,
    ext = String "." (e ++ String z "")
    /\ existsb_s (Ascii.eqb ".") (e ++ String z "") = false
    /\ existsb_s isSlash ext = false
    /\ isSlash z = false.

(** A computation of transformRemoteArgs that never returns early. *)
Definition neverNone (m : M (option Target)) : Prop :=
  forall a a', m a <> Ok None a'.

(** [name] placed in the cleaned directory [dir]. *)
Definition inDir (dir name : string) : string :=
  if (dir =? "/")%string then "/" ++ name
  else if (dir =? ".")%string then name
  else dir ++ "/" ++ name.

(** A path element that Clean keeps: not empty, no separator, and not
    the current directory. *)
Definition keptElement (e : string) : bool :=
  (plainElement e && negb (e =? ".")%string)%bool.

(** The argument list an outcome carries. *)
Definition stateOf {A : Type} (r : Res A) : Args :=
  match r with Ok _ a => a | Fatal _ a => a end.

(** Two argument lists that differ in their parameters at most. *)
Definition sameButParams (a b : Args) : Prop :=
  Command a = Command b /\ beforeChain a = beforeChain b /\ Noop a = Noop b.

(** A computation that touches nothing but the parameters, however it
    ends. *)
Definition framed {A : Type} (m : M A) : Prop :=
  forall a, sameButParams a (stateOf (m a)).

(** The local [owner] of transformRemoteArgs where line 99 compares it
    with the user of the host: the owner parsed from the trailing
    parameter, or the user that the [origin] special case put in its
    place. *)
Definition ownerCompared (args : Args) (hostConfig : HostConfig) : string :=
  if originCase args then User hostConfig
  else fst (parseRepoNameOwner (LastParam args)).

(** Lines 57 to 60 of transformApplyArgs: the pull-request suffix cut
    back to group 1 of pullRegexp. *)
Definition collapsePull (url : string) : string :=
  match pullRegexp url with
  | Some (before, pull) => before ++ pull
  | None => url
  end.

(** No rule matches: for [remote], no parameter, a first parameter other
    than [add] and [set-url], or a trailing parameter on neither grammar;
    for [apply], no parameter that matches the URL pattern. *)
Definition unmatched (c : Rule) (args : Args) : Prop :=
  match c with
  | cmdRemote =>
      Params args = []
      \/ (FirstParam args <> "add" /\ FirstParam args <> "set-url")
      \/ (~ bareOwner (LastParam args) /\ ~ ownerSlashName (LastParam args))
  | cmdApply => forall p, In p (Params args) -> urlMatch p = false
  end.

(** The sample context with no default host configured. *)
Definition unconfigured : Context :=
  mkContext (LocalRepo sample) (RootDirName sample)
            (failed "no default host") (FormatError sample)
            (NewProject sample) (GitURL sample) (GitHubHost sample)
            (ToLower sample) (TempDir sample) (Version sample).

(** ** Printing: package [fmt] *)

Definition newline : string := String "010" EmptyString.

(** The decimal digit [d], for [0 <= d < 10]. *)
Definition digitChar (d : Z) : ascii := ascii_of_N (48 + Z.to_N d).

(** The decimal digits of [n >= 0], most significant first; [fuel] bounds
    their number. *)
Fixpoint decimalFuel (fuel : nat) (n : Z) : string :=
  match fuel with
  | O => EmptyString
  | S f =>
      if n <? 10 then String (digitChar n) EmptyString
      else decimalFuel f (n / 10) ++ String (digitChar (n mod 10)) EmptyString
  end.

(** [n >= 0] in base 10. A number has no more decimal digits than
    binary ones. *)
Definition decimal (n : Z) : string :=
  decimalFuel (S (Z.to_nat (Z.log2 n))) n.

Fixpoint spaces (k : nat) : string :=
  match k with
  | O => EmptyString
  | S k' => String " " (spaces k')
  end.

(** Padding with spaces on the left up to the width [w]. *)
Definition padLeft (w : nat) (s : string) : string :=
  spaces (w - String.length s) ++ s.

(** The verb [% <w>d]: the sign, a space standing for the plus, then the
    digits, the whole padded on the left to the width. *)
Definition fmtSpaceD (w : nat) (n : Z) : string :=
  padLeft w ((if n <? 0 then "-" else " ") ++ decimal (Z.abs n)).

(** ** The listing of issues *)

(** An issue as the client returns it, as far as the listing reads it:
    [Number], [Title], [HTMLURL] and [PullRequest.HTMLURL]. *)
Record Issue := mkIssue {
  Number : Z;
  Title : string;
  HTMLURL : string;
  PullRequest_HTMLURL : string
}.

(** The body of the loop of [issue]: the URL of the line, and the line. *)
Definition issueURL (issue : Issue) : string :=
  (* use the pull request URL if we have one *)
  if negb (PullRequest_HTMLURL issue =? "")%string
  then PullRequest_HTMLURL issue
  else HTMLURL issue.

Definition issueLine (issue : Issue) : string :=
  fmtSpaceD 7 (Number issue) ++ "] " ++ Title issue
  ++ " ( " ++ issueURL issue ++ " )" ++ newline.

(** issue, inside runInLocalRepo: what it prints, or the error it stops
    on. [project] is the project as [%s] prints it and [issues] the answer
    of gh.Issues, asked for only outside a dry run. *)
Definition issue (noop : bool) (project : string)
    (issues : result (list Issue)) : result string :=
  if noop then ok ("Would request list of issues for " ++ project ++ newline)
  else
    match issues with
    | failed e => failed e
    | ok l => ok (String.concat "" (map issueLine l))
    end.

(** ** Package [strconv] *)

(** The value of a run of decimal digits after the value [acc] of the
    digits before it; [None] on a byte that is no digit. *)
Fixpoint digitsValue (acc : Z) (s : string) : option Z :=
  match s with
  | EmptyString => Some acc
  | String c r =>
      if isDigit c
      then digitsValue (acc * 10 + (Z.of_N (N_of_ascii c) - 48)) r
      else None
  end.

(** strconv.Atoi for an [int] of [bits] bits: an optional sign, then one
    decimal digit or more; [None] is a syntax or a range error. *)
Definition Atoi (bits : Z) (s : string) : option Z :=
  match s with
  | EmptyString => None
  | String c r =>
      let '(neg, ds) :=
        if Ascii.eqb c "+" then (false, r)
        else if Ascii.eqb c "-" then (true, r)
        else (false, s) in
      match ds with
      | EmptyString => None
      | _ =>
          match digitsValue 0 ds with
          | None => None
          | Some v =>
              if neg then (if v <=? 2 ^ (bits - 1) then Some (- v) else None)
              else (if v <? 2 ^ (bits - 1) then Some v else None)
          end
      end
  end.

(** ** Package [git] *)

(** strings.Split(s, sep) for a separator of one byte. *)
Fixpoint splitOn (sep : ascii) (s : string) : list string :=
  match s with
  | EmptyString => [EmptyString]
  | String c r =>
      if Ascii.eqb c sep then EmptyString :: splitOn sep r
      else match splitOn sep r with
           | e :: es => String c e :: es
           | [] => [String c EmptyString]
           end
  end.

(** What a Go function of the package ends in: a value, an error
    returned, or a run-time panic. *)
Inductive Try (A : Type) : Type :=
| Val (a : A)
| Err (e : error)
| Panic (msg : string).
Arguments Val {A} a.
Arguments Err {A} e.
Arguments Panic {A} msg.

Module Git.

(** What the package reads from outside: the global flags, the git
    process (the combined output and the error of running git with the
    given arguments), the environment, and the library functions whose
    tables are Unicode's. *)
Record Env := mkEnv {
  GlobalFlags : list string;
  CombinedOutput : list string -> string * option error;
  Getenv : string -> string;
  TrimSpace : string -> string;
  ToLower : string -> string;
  IntSize : Z
}.

Definition AuthorSignatureHeader : string := "Signed-off-by: ".

Section Package.

Variable env : Env.

(** gitOutput: the trimmed, non-empty lines of the output, and the error
    of the process. *)
Definition gitOutput (input : list string) : list string * option error :=
  let '(out, err) := CombinedOutput env (GlobalFlags env ++ input) in
  (filter (fun line => negb (line =? "")%string)
          (map (TrimSpace env) (splitOn "010" out)),
   err).

(** gitConfigCommand *)
Definition gitConfigCommand (args : list string) : list string :=
  "config" :: args.

(** gitGetConfig. Indexing [args] and [output] panics when they are
    empty. *)
Definition gitGetConfig (args : list string) : Try string :=
  let '(output, err) := gitOutput (gitConfigCommand args) in
  match err with
  | Some _ =>
      match args with
      | [] => Panic "index out of range"
      | _ => Err ("Unknown config " ++ last args "")
      end
  | None =>
      match output with
      | [] => Panic "index out of range"
      | v :: _ => Val v
      end
  end.

(** Config *)
Definition Config (name : string) : Try string := gitGetConfig [name].

(** GlobalConfig *)
Definition GlobalConfig (name : string) : Try string :=
  gitGetConfig ["--global"; name].

(** CommentChar *)
Definition CommentChar : Try string :=
  match Config "core.commentchar" with
  | Val char => Val char
  | Err _ => Val "#"
  | Panic m => Panic m
  end.

(** BoolConfig. [v[0]] is read after the test for the empty value. *)
Definition BoolConfig (name : string) : Try bool :=
  match gitGetConfig [name] with
  | Panic m => Panic m
  | Err _ => Val false
  | Val v =>
      let v := ToLower env v in
      if ((v =? "") || (v =? "true") || (v =? "yes") || (v =? "on"))%string%bool
      then Val true
      else if ((v =? "false") || (v =? "no") || (v =? "off")
               || match v with
                  | String c _ => Ascii.eqb c "0"
                  | EmptyString => false
                  end)%string%bool
      then Val false
      else match Atoi (IntSize env) v with
           | None => Val false
           | Some i => Val (0 <? i)
           end
  end.

(** authorIdent *)
Definition authorIdent : Try string :=
  match
    (match gitGetConfig ["user.name"] with
     | Val name => Val name
     | Panic m => Panic m
     | Err _ =>
         let name := Getenv env "GIT_AUTHOR_NAME" in
         if (name =? "")%string then Err "Can't load git config: user.name"
         else Val name
     end)
  with
  | Err e => Err e
  | Panic m => Panic m
  | Val name =>
      match
        (match gitGetConfig ["user.email"] with
         | Val email => Val email
         | Panic m => Panic m
         | Err _ =>
             let email := Getenv env "GIT_AUTHOR_EMAIL" in
             if (email =? "")%string then Err "Can't load git config: user.email"
             else Val email
         end)
      with
      | Err e => Err e
      | Panic m => Panic m
      | Val email => Val (name ++ " <" ++ email ++ ">")
      end
  end.

(** AuthorSignature *)
Definition AuthorSignature : Try string :=
  match authorIdent with
  | Val ident => Val (AuthorSignatureHeader ++ ident)
  | Err e => Err e
  | Panic m => Panic m
  end.

End Package.

End Git.

(** Trimming of the ASCII blanks, for the sample below. *)
Definition trimAscii (s : string) : string :=
  let isSpace c := (Ascii.eqb c " " || Ascii.eqb c "009" || Ascii.eqb c "013")%bool in
  let fix dropl (s : string) :=
    match s with
    | String c r => if isSpace c then dropl r else s
    | EmptyString => EmptyString
    end in
  let fix dropr (s : string) :=
    match s with
    | String c r =>
        match dropr r with
        | EmptyString => if isSpace c then EmptyString else String c EmptyString
        | r' => String c r'
        end
    | EmptyString => EmptyString
    end in
  dropr (dropl s).

(** A sample of the package's surroundings: git answers [config
    user.name], [config hub.retries] and, with an empty line, [config
    hub.blank], and fails on every other command; no global flags; an
    environment with an author email only. *)
Definition sampleGit : Git.Env :=
  Git.mkEnv []
    (fun args =>
       if list_eq_dec string_dec args ["config"; "user.name"]
       then ("Jingwen Owen Ou" ++ newline, None)
       else if list_eq_dec string_dec args ["config"; "hub.retries"]
       then ("12" ++ newline, None)
       else if list_eq_dec string_dec args ["config"; "hub.blank"]
       then (newline, None)
       else ("", Some "exit status 1"))
    (fun name => if (name =? "GIT_AUTHOR_EMAIL")%string then "jingweno@gmail.com" else "")
    trimAscii asciiLower 64.

(** git printing [out] for [config core.commentchar] and failing on
    every other command. *)
Definition commentGit (out : string) : Git.Env :=
  Git.mkEnv []
    (fun args =>
       if list_eq_dec string_dec args ["config"; "core.commentchar"]
       then (out, None)
       else ("", Some "exit status 1"))
    (fun _ => "") trimAscii asciiLower 64.

(** The number a run of digits writes, and whether it starts with [0]. *)
Definition numeral (ds : string) : Z :=
  match digitsValue 0 ds with Some v => v | None => 0 end.

Definition leadingZero (s : string) : bool :=
  match s with
  | String c _ => Ascii.eqb c "0"
  | EmptyString => false
  end.
(** * Properties *)

(** ** The library and the expressions on examples *)

Example Ext_patch : Filepath.Ext "https://github.com/a/b/pull/5.patch" = ".patch".
Proof. reflexivity. Qed.

Example Ext_none : Filepath.Ext "https://github.com/a.b/pull/5" = "".
Proof. reflexivity. Qed.

Example Base_pull : Filepath.Base "https://github.com/a/b/pull/5.patch" = "5.patch".
Proof. reflexivity. Qed.

Example Base_trailing : Filepath.Base "/tmp/x//" = "x".
Proof. reflexivity. Qed.

Example Clean_dots : Filepath.Clean "/tmp/./a/../b//c" = "/tmp/b/c".
Proof. reflexivity. Qed.

Example Clean_up : Filepath.Clean "a/../../b" = "../b".
Proof. reflexivity. Qed.

Example Clean_url : Filepath.Clean "https://github.com/x" = "https:/github.com/x".
Proof. reflexivity. Qed.

Example Join_tmp : Filepath.Join ["/tmp"; "gist-8da7.txt"] = "/tmp/gist-8da7.txt".
Proof. reflexivity. Qed.

Example urlRegexp_gist :
  urlRegexp "https://gist.github.com/8da7fb575debd88c54cf" = Some "gist.".
Proof. reflexivity. Qed.

Example urlRegexp_main : urlRegexp "http://github.com/jingweno/gh/pull/55" = Some "".
Proof. reflexivity. Qed.

Example urlRegexp_other : urlRegexp "https://github.company.com/a" = None.
Proof. reflexivity. Qed.

Example stripFragment_diff :
  stripFragment false "https://github.com/a/b/pull/5/files#diff-0" =
  "https://github.com/a/b/pull/5/files".
Proof. reflexivity. Qed.

Example stripFragment_bare : stripFragment false "a#" = "a#".
Proof. reflexivity. Qed.

Example pullRegexp_files :
  pullRegexp "https://github.com/a/b/pull/55/files" =
  Some ("https://github.com/a/b", "/pull/55").
Proof. reflexivity. Qed.

Example pullRegexp_plain : pullRegexp "https://github.com/a/b/pull/55" = None.
Proof. reflexivity. Qed.

Example parse_owner : parseRepoNameOwner "jingweno" = ("jingweno", "").
Proof. reflexivity. Qed.

Example parse_pair : parseRepoNameOwner "foo/bar.js" = ("foo", "bar.js").
Proof. reflexivity. Qed.

Example parse_url : parseRepoNameOwner "git://github.com/foo/bar.git" = ("", "").
Proof. reflexivity. Qed.

(** ** Bytes *)

Ltac bytes c :=
  destruct c as [[|] [|] [|] [|] [|] [|] [|] [|]];
  try reflexivity; try discriminate.

Lemma isAlnum_plain c :
  isAlnum c = true ->
  isSlash c = false /\ Ascii.eqb c "-" = false /\ Ascii.eqb c ":" = false.
Proof. bytes c; repeat split. Qed.

Lemma ownerChar_plain c :
  (isAlnum c || Ascii.eqb c "-")%bool = true ->
  isSlash c = false /\ Ascii.eqb c ":" = false.
Proof. bytes c; repeat split. Qed.

Lemma nameChar_plain c :
  (isWord c || Ascii.eqb c "." || Ascii.eqb c "-")%bool = true ->
  isSlash c = false /\ Ascii.eqb c ":" = false.
Proof. bytes c; repeat split. Qed.

Lemma isWord_plain c :
  isWord c = true ->
  isSlash c = false /\ Ascii.eqb c "." = false /\ Ascii.eqb c "#" = false.
Proof. bytes c; repeat split. Qed.

Lemma isDigit_plain c :
  isDigit c = true ->
  isSlash c = false /\ Ascii.eqb "." c = false /\ Ascii.eqb c "#" = false
  /\ isWord c = true.
Proof. bytes c; repeat split. Qed.

(** ** Byte strings *)

Lemma append_nil_r (s : string) : s ++ "" = s.
Proof. induction s; simpl; congruence. Qed.

Lemma append_assoc (a b c : string) : (a ++ b) ++ c = a ++ b ++ c.
Proof. induction a; simpl; congruence. Qed.

Lemma forallb_s_app f (a b : string) :
  forallb_s f (a ++ b) = (forallb_s f a && forallb_s f b)%bool.
Proof. induction a; simpl; [reflexivity|]. rewrite IHa. apply andb_assoc. Qed.

Lemma existsb_s_app f (a b : string) :
  existsb_s f (a ++ b) = (existsb_s f a || existsb_s f b)%bool.
Proof. induction a; simpl; [reflexivity|]. rewrite IHa. apply orb_assoc. Qed.

Lemma forallb_s_none (f g : ascii -> bool) (s : string) :
  (forall c, f c = true -> g c = false) ->
  forallb_s f s = true -> existsb_s g s = false.
Proof.
  intros Hfg. induction s as [|c r IH]; simpl; [reflexivity|].
  intros H. apply andb_true_iff in H as [Hc Hr].
  rewrite (Hfg _ Hc), (IH Hr). reflexivity.
Qed.

Lemma cut_Some (p s r : string) : cut p s = Some r <-> s = p ++ r.
Proof.
  revert s. induction p as [|a p IH]; intros s; simpl.
  - split; [intros [= ->]; reflexivity | intros ->; reflexivity].
  - destruct s as [|b s]; [split; discriminate|].
    destruct (Ascii.eqb_spec a b) as [->|Hab].
    + rewrite IH. split; [intros ->; reflexivity | intros [= ->]; reflexivity].
    + split; [discriminate | intros [= Hb _]; congruence].
Qed.

Lemma cut_app (p r : string) : cut p (p ++ r) = Some r.
Proof. apply cut_Some. reflexivity. Qed.

Lemma eqb_false_of (a b : string) : a <> b -> (a =? b)%string = false.
Proof. apply String.eqb_neq. Qed.

(** ** The trailing parameter *)

Lemma OwnerRe_chars (s : string) :
  OwnerRe s = true ->
  forallb_s (fun d => isAlnum d || Ascii.eqb d "-")%bool s = true.
Proof.
  destruct s as [|c r]; simpl; [discriminate|].
  intros H. apply andb_true_iff in H as [Hc Hr].
  rewrite Hc, Hr. reflexivity.
Qed.

Lemma NameRe_chars (s : string) :
  NameRe s = true ->
  forallb_s (fun d => isWord d || Ascii.eqb d "." || Ascii.eqb d "-")%bool s = true.
Proof.
  destruct s as [|c r]; simpl; [discriminate|].
  intros H. apply andb_true_iff in H as [Hc Hr].
  rewrite Hr, andb_true_r.
  apply orb_true_iff in Hc as [Hc|Hc]; rewrite Hc; simpl;
    [reflexivity | rewrite orb_true_r; reflexivity].
Qed.

Lemma OwnerRe_no_slash (s : string) : OwnerRe s = true -> existsb_s isSlash s = false.
Proof.
  intros H. apply OwnerRe_chars in H. revert H. apply forallb_s_none.
  intros c Hc. apply ownerChar_plain in Hc. tauto.
Qed.

Lemma OwnerRe_no_colon (s : string) :
  OwnerRe s = true -> existsb_s (fun c => Ascii.eqb c ":") s = false.
Proof.
  intros H. apply OwnerRe_chars in H. revert H. apply forallb_s_none.
  intros c Hc. apply ownerChar_plain in Hc. tauto.
Qed.

Lemma NameRe_no_colon (s : string) :
  NameRe s = true -> existsb_s (fun c => Ascii.eqb c ":") s = false.
Proof.
  intros H. apply NameRe_chars in H. revert H. apply forallb_s_none.
  intros c Hc. apply nameChar_plain in Hc. tauto.
Qed.

Lemma OwnerRe_nonempty (s : string) : OwnerRe s = true -> s <> "".
Proof. destruct s; simpl; [discriminate | intros _; discriminate]. Qed.

(** An owner is not a flag. *)
Lemma OwnerRe_not_flag (s : string) :
  OwnerRe s = true -> Strings.HasPrefix s "-" = false.
Proof.
  destruct s as [|c r]; simpl; [discriminate|].
  intros H. apply andb_true_iff in H as [Hc _].
  apply isAlnum_plain in Hc as (_ & Hd & _).
  unfold Strings.HasPrefix. cbn [cut].
  rewrite Ascii.eqb_sym, Hd. reflexivity.
Qed.

Lemma cutSlash_Some (s a b : string) :
  cutSlash s = Some (a, b) -> s = a ++ "/" ++ b /\ existsb_s isSlash a = false.
Proof.
  revert a. induction s as [|c r IH]; simpl; intros a; [discriminate|].
  destruct (isSlash c) eqn:Hc.
  - intros [= <- <-]. apply Ascii.eqb_eq in Hc. subst c. split; reflexivity.
  - destruct (cutSlash r) as [[a' b']|]; [|discriminate].
    intros [= <- <-]. destruct (IH a' eq_refl) as [-> Ha].
    simpl. rewrite Hc, Ha. split; reflexivity.
Qed.

Lemma cutSlash_app (a b : string) :
  existsb_s isSlash a = false -> cutSlash (a ++ "/" ++ b) = Some (a, b).
Proof.
  induction a as [|c r IH]; simpl in *; [reflexivity|].
  intros H. apply orb_false_iff in H as [Hc Hr].
  rewrite Hc, (IH Hr). reflexivity.
Qed.

Lemma pair_not_owner (o n : string) : OwnerRe (o ++ "/" ++ n) = false.
Proof.
  destruct (OwnerRe (o ++ "/" ++ n)) eqn:H; [|reflexivity].
  apply OwnerRe_no_slash in H. rewrite existsb_s_app in H. simpl in H.
  rewrite orb_true_r in H. discriminate.
Qed.

Lemma parse_bareOwner (s : string) :
  bareOwner s -> parseRepoNameOwner s = (s, "").
Proof. unfold bareOwner, parseRepoNameOwner. intros ->. reflexivity. Qed.

Lemma parse_ownerSlashName (o n : string) :
  OwnerRe o = true -> NameRe n = true ->
  parseRepoNameOwner (o ++ "/" ++ n) = (o, n).
Proof.
  intros Ho Hn. unfold parseRepoNameOwner.
  rewrite pair_not_owner.
  rewrite cutSlash_app by (apply OwnerRe_no_slash; assumption).
  rewrite Ho, Hn. reflexivity.
Qed.

(** parseRepoNameOwner gives an owner exactly on the two grammars. *)
Lemma parse_unmatched (s : string) :
  fst (parseRepoNameOwner s) = "" <-> ~ bareOwner s /\ ~ ownerSlashName s.
Proof.
  split.
  - intros H. split.
    + intros Hb. rewrite (parse_bareOwner _ Hb) in H. simpl in H.
      apply (OwnerRe_nonempty _ Hb). assumption.
    + intros (o & n & -> & Ho & Hn).
      rewrite (parse_ownerSlashName _ _ Ho Hn) in H. simpl in H.
      apply (OwnerRe_nonempty _ Ho). assumption.
  - intros [Hb Hs]. unfold parseRepoNameOwner, bareOwner in *.
    destruct (OwnerRe s); [contradiction Hb; reflexivity|].
    destruct (cutSlash s) as [[o n]|] eqn:Hc; [|reflexivity].
    destruct (OwnerRe o && NameRe n)%bool eqn:Hon; [|reflexivity].
    apply andb_true_iff in Hon as [Ho Hn].
    apply cutSlash_Some in Hc as [-> _].
    contradiction Hs. exists o, n. auto.
Qed.

(** A parsed owner is an owner; a parsed name is a name or absent. *)
Lemma parse_owner_shape (s o n : string) :
  parseRepoNameOwner s = (o, n) -> o <> "" ->
  OwnerRe o = true /\
  ((n = "" /\ s = o) \/ (NameRe n = true /\ s = o ++ "/" ++ n)).
Proof.
  unfold parseRepoNameOwner.
  destruct (OwnerRe s) eqn:Hs.
  - intros [= <- <-] _. auto.
  - destruct (cutSlash s) as [[a b]|] eqn:Hc; [|intros [= <- _] H; congruence].
    destruct (OwnerRe a && NameRe b)%bool eqn:Hab; [|intros [= <- _] H; congruence].
    intros [= <- <-] _. apply andb_true_iff in Hab as [Ha Hb].
    apply cutSlash_Some in Hc as [-> _]. auto.
Qed.

(** Text with a colon, and so every URL with a scheme and every
    [user@host:path] address, is on neither grammar. *)
Lemma parse_colon (s : string) :
  existsb_s (fun c => Ascii.eqb c ":") s = true ->
  parseRepoNameOwner s = ("", "").
Proof.
  intros Hcolon.
  destruct (parseRepoNameOwner s) as [o n] eqn:Hp.
  destruct (String.eqb_spec o "") as [->|Ho].
  - unfold parseRepoNameOwner in Hp.
    destruct (OwnerRe s) eqn:Hs.
    + injection Hp as <- <-. apply OwnerRe_nonempty in Hs. congruence.
    + destruct (cutSlash s) as [[a b]|]; [|congruence].
      destruct (OwnerRe a && NameRe b)%bool eqn:Hab; [|congruence].
      injection Hp as -> <-. apply andb_true_iff in Hab as [Ha _].
      discriminate Ha.
  - exfalso. destruct (parse_owner_shape _ _ _ Hp Ho) as [Hown [[_ ->]|[Hn ->]]].
    + apply OwnerRe_no_colon in Hown. congruence.
    + rewrite existsb_s_app in Hcolon. simpl in Hcolon.
      rewrite (OwnerRe_no_colon _ Hown), (NameRe_no_colon _ Hn) in Hcolon.
      discriminate.
Qed.

(** ** Invocations no rule matches *)

Lemma find_none_of {A : Type} (f : A -> bool) (l : list A) :
  (forall x, In x l -> f x = false) -> find f l = None.
Proof.
  induction l as [|x l IH]; simpl; [reflexivity|].
  intros H. rewrite (H x) by auto. apply IH. intros y Hy. apply H. auto.
Qed.

Lemma transformRemoteArgs_unparsed (ctx : Context) (args : Args) :
  fst (parseRepoNameOwner (LastParam args)) = "" ->
  transformRemoteArgs ctx args = Ok tt args.
Proof.
  intros H. unfold transformRemoteArgs, remoteTarget, bind, ask.
  destruct (parseRepoNameOwner (LastParam args)) as [o n].
  simpl in H. subst o. reflexivity.
Qed.

(** C1. An invocation that no rule matches comes back as it went in: the
    same argument list, and nothing added to the queue of prerequisite
    commands. *)
Theorem unmatched_passthrough (ctx : Context) (c : Rule) (args : Args) :
  unmatched c args -> Run ctx c args = Ok tt args.
Proof.
  destruct c; simpl.
  - intros H. unfold remote.
    destruct H as [H | [[Hadd Hset] | H]].
    + unfold IsParamsEmpty. rewrite H. reflexivity.
    + rewrite (eqb_false_of _ _ Hadd), (eqb_false_of _ _ Hset).
      rewrite andb_false_r. reflexivity.
    + apply parse_unmatched in H.
      rewrite (transformRemoteArgs_unparsed ctx args H).
      destruct (_ && _)%bool; reflexivity.
  - intros H. unfold apply, transformApplyArgs.
    rewrite (find_none_of _ _ H).
    destruct (negb _); reflexivity.
Qed.

Lemma unmatched_passthrough_witness :
  Run sample cmdRemote (cmdline "remote" ["add"; "-f"; "git://github.com/foo/bar.git"])
  = Ok tt (cmdline "remote" ["add"; "-f"; "git://github.com/foo/bar.git"]).
Proof.
  apply (unmatched_passthrough sample cmdRemote).
  right; right. apply parse_unmatched. reflexivity.
Defined.

Example passthrough_remote_show :
  Run sample cmdRemote (cmdline "remote" ["show"; "origin"])
  = Ok tt (cmdline "remote" ["show"; "origin"]).
Proof. reflexivity. Qed.

Example passthrough_apply_file :
  Run sample cmdApply (cmdline "apply" ["--check"; "/tmp/55.patch"])
  = Ok tt (cmdline "apply" ["--check"; "/tmp/55.patch"]).
Proof. reflexivity. Qed.

(** ** Configuration errors *)

(** C8. When the default host cannot be resolved, a [remote add|set-url]
    invocation whose trailing parameter is on one of the grammars stops
    through utils.Check, and the argument list it stops with is the one it
    was given: no parameter replaced, removed or appended, nothing
    enqueued. The error is that of the configuration, unless the local
    repository or the root directory failed before it. *)
Theorem config_error_aborts (ctx : Context) (args : Args) (e : error) :
  Params args <> [] ->
  FirstParam args = "add" \/ FirstParam args = "set-url" ->
  bareOwner (LastParam args) \/ ownerSlashName (LastParam args) ->
  DefaultHost ctx = failed e ->
  exists msg,
    remote ctx args = Fatal msg args
    /\ (msg = FormatError ctx "adding remote" e
        \/ LocalRepo ctx = failed msg
        \/ RootDirName ctx = failed msg).
Proof.
  intros Hne Hkey Hgram Hcfg. unfold remote.
  assert (IsParamsEmpty args = false) as ->.
  { unfold IsParamsEmpty. destruct (Params args); [contradiction|reflexivity]. }
  assert (((FirstParam args =? "add") || (FirstParam args =? "set-url"))%string%bool
          = true) as ->.
  { destruct Hkey as [-> | ->]; reflexivity. }
  simpl.
  unfold transformRemoteArgs, remoteTarget, bind, ask, Check, ret.
  destruct (parseRepoNameOwner (LastParam args)) as [o n] eqn:Hp.
  destruct (String.eqb_spec o "") as [->|Ho].
  { exfalso. assert (fst (parseRepoNameOwner (LastParam args)) = "") as H
      by (rewrite Hp; reflexivity).
    apply parse_unmatched in H. tauto. }
  destruct (LocalRepo ctx) as [repo|e1] eqn:Hrepo; [|eauto].
  destruct (n =? "")%string.
  - destruct (MainProject repo) as [p|e2].
    + rewrite Hcfg. eauto.
    + destruct (RootDirName ctx) as [d|e3] eqn:Hdir; [|eauto].
      rewrite Hcfg. eauto.
  - rewrite Hcfg. eauto.
Qed.

Lemma config_error_aborts_witness :
  exists msg,
    remote unconfigured (cmdline "remote" ["add"; "-p"; "mislav"])
    = Fatal msg (cmdline "remote" ["add"; "-p"; "mislav"])
    /\ (msg = FormatError unconfigured "adding remote" "no default host"
        \/ LocalRepo unconfigured = failed msg
        \/ RootDirName unconfigured = failed msg).
Proof.
  apply (config_error_aborts unconfigured
           (cmdline "remote" ["add"; "-p"; "mislav"]) "no default host").
  - discriminate.
  - left; reflexivity.
  - left; reflexivity.
  - reflexivity.
Defined.

Example config_error_message :
  remote unconfigured (cmdline "remote" ["add"; "-p"; "mislav"])
  = Fatal "Error adding remote: no default host"
          (cmdline "remote" ["add"; "-p"; "mislav"]).
Proof. reflexivity. Qed.

(** ** Looking up and editing parameters *)

Lemma setParams_same (a : Args) : setParams a (Params a) = a.
Proof. destruct a; reflexivity. Qed.

Lemma indexFrom_removeFirst (v : string) (l : list string) (i : Z) :
  0 <= i ->
  let k := indexFrom i v l in
  (k = -1 /\ removeFirst v l = l /\ hasFlag v l = false)
  \/ (i <= k < i + Z.of_nat (length l)
      /\ removeNth (Z.to_nat (k - i)) l = removeFirst v l
      /\ hasFlag v l = true).
Proof.
  revert i. induction l as [|p l IH]; intros i Hi; simpl.
  - left. auto.
  - rewrite (String.eqb_sym v p). destruct (p =? v)%string eqn:Hp; simpl.
    + right. rewrite Z.sub_diag. simpl. repeat split; lia.
    + destruct (IH (i + 1) ltac:(lia)) as [(Hk & Hr & Hf) | (Hk & Hr & Hf)].
      * left. rewrite Hr. auto.
      * right. split; [lia|]. split; [|assumption].
        replace (indexFrom (i + 1) v l - i) with (Z.succ (indexFrom (i + 1) v l - (i + 1))) by lia.
        rewrite Z2Nat.inj_succ by lia. cbn [removeNth]. rewrite Hr. reflexivity.
Qed.

Lemma indexFrom_replaceFirst (w v : string) (l : list string) (i : Z) :
  0 <= i ->
  let k := indexFrom i w l in
  (k = -1 /\ replaceFirst w v l = l)
  \/ (i <= k < i + Z.of_nat (length l)
      /\ replaceNth (Z.to_nat (k - i)) v l = replaceFirst w v l).
Proof.
  revert i. induction l as [|p l IH]; intros i Hi; simpl.
  - left. auto.
  - destruct (p =? w)%string eqn:Hp; simpl.
    + right. rewrite Z.sub_diag. simpl. split; [lia | reflexivity].
    + destruct (IH (i + 1) ltac:(lia)) as [(Hk & Hr) | (Hk & Hr)].
      * left. rewrite Hr. auto.
      * right. split; [lia|].
        replace (indexFrom (i + 1) w l - i) with (Z.succ (indexFrom (i + 1) w l - (i + 1))) by lia.
        rewrite Z2Nat.inj_succ by lia. cbn [replaceNth]. rewrite Hr. reflexivity.
Qed.

Lemma removeNth_last (l : list string) :
  removeNth (length l - 1) l = removelast l.
Proof.
  induction l as [|p l IH]; [reflexivity|].
  destruct l as [|q l]; [reflexivity|].
  replace (length (p :: q :: l) - 1)%nat with (S (length (q :: l) - 1))
    by (simpl; lia).
  cbn [removeNth]. rewrite IH. reflexivity.
Qed.

(** parseRemotePrivateFlag tells whether [-p] is among the parameters and
    takes its first occurrence out. *)
Lemma parseRemotePrivateFlag_run (args : Args) :
  parseRemotePrivateFlag args
  = Ok (hasFlag "-p" (Params args))
       (setParams args (removeFirst "-p" (Params args))).
Proof.
  unfold parseRemotePrivateFlag, bind, ask, update, ret, IndexOfParam, RemoveParam.
  destruct (indexFrom_removeFirst "-p" (Params args) 0 ltac:(lia))
    as [(Hk & Hr & Hf) | (Hk & Hr & Hf)]; rewrite Hf.
  - rewrite Hk, Hr, setParams_same. reflexivity.
  - rewrite Z.sub_0_r in Hr.
    destruct (indexFrom 0 "-p" (Params args) =? -1) eqn:E; [lia|]. simpl.
    unfold inBounds.
    destruct (0 <=? indexFrom 0 "-p" (Params args)) eqn:E1; [|lia].
    destruct (indexFrom 0 "-p" (Params args) <? Z.of_nat (length (Params args))) eqn:E2; [|lia].
    simpl. rewrite Hr. reflexivity.
Qed.

(** ** The run of transformRemoteArgs *)

Lemma ReplaceParam_first (args : Args) (ps : list string) (w v : string) :
  (let a := setParams args ps in
   let idx := IndexOfParam a w in
   if negb (idx =? -1) then ReplaceParam a idx v else a)
  = setParams args (replaceFirst w v ps).
Proof.
  cbv zeta. unfold IndexOfParam, ReplaceParam, inBounds. cbn [Params setParams].
  destruct (indexFrom_replaceFirst w v ps 0 ltac:(lia)) as [(Hk & Hr) | (Hk & Hr)].
  - rewrite Hk, Hr. reflexivity.
  - rewrite Z.sub_0_r in Hr.
    destruct (indexFrom 0 w ps =? -1) eqn:E; [lia|]. simpl.
    destruct (0 <=? indexFrom 0 w ps) eqn:E1; [|lia].
    destruct (indexFrom 0 w ps <? Z.of_nat (length ps)) eqn:E2; [|lia].
    simpl. rewrite Hr. reflexivity.
Qed.

Lemma RemoveParam_last (args : Args) (ps : list string) :
  (let a := setParams args ps in RemoveParam a (ParamsSize a - 1))
  = setParams args (removelast ps).
Proof.
  cbv zeta. unfold RemoveParam, ParamsSize, inBounds. cbn [Params setParams].
  destruct ps as [|p ps]; [reflexivity|].
  assert (length (p :: ps) >= 1)%nat as Hlen by (simpl; lia).
  destruct (0 <=? Z.of_nat (length (p :: ps)) - 1) eqn:E1; [|lia].
  destruct (Z.of_nat (length (p :: ps)) - 1 <? Z.of_nat (length (p :: ps))) eqn:E2;
    [|lia].
  cbn [andb].
  replace (Z.to_nat (Z.of_nat (length (p :: ps)) - 1)) with (length (p :: ps) - 1)%nat
    by lia.
  rewrite removeNth_last. reflexivity.
Qed.

(** What transformRemoteArgs has computed when it reaches the call of
    GitURL, for a trailing parameter that parses to the owner [o] and the
    name [n]. *)
Lemma remoteTarget_run (ctx : Context) (args : Args) (o n R h : string)
    (hc : HostConfig) :
  parseRepoNameOwner (LastParam args) = (o, n) -> o <> "" ->
  resolves ctx n R h -> DefaultHost ctx = ok hc ->
  let own := if originCase args then User hc else o in
  let nm := if originCase args then R else if (n =? "")%string then R else n in
  let same := (ToLower ctx own =? ToLower ctx (User hc))%string in
  let owner := if same then User hc else own in
  let project := NewProject ctx owner nm h in
  remoteTarget ctx args
  = Ok (Some (mkTarget owner nm project
                (hasFlag "-p" (Params args) || same
                 || negb (Host project =? GitHubHost ctx)%string)))
       (setParams args (remoteParams args o)).
Proof.
  intros Hp Ho Hres Hcfg. cbv zeta.
  assert (forall repoName name' : string,
    (words <- ask Words ;;
     isPrivate <- parseRemotePrivateFlag ;;
     '(owner, name) <-
       (if ((length words =? 2)%nat && (nth 1 words "" =? "origin")%string)%bool
        then ret (User hc, repoName)
        else if (length words =? 2)%nat then
          idx <- ask (fun args => IndexOfParam args (nth 1 words "")) ;;
          (if negb (idx =? -1)
           then update (fun args => ReplaceParam args idx o)
           else ret tt) ;;
          ret (o, name')
        else
          update (fun args => RemoveParam args (ParamsSize args - 1)) ;;
          ret (o, name')) ;;
     let '(owner, isPrivate) :=
       if (ToLower ctx owner =? ToLower ctx (User hc))%string
       then (User hc, true)
       else (owner, isPrivate) in
     let project := NewProject ctx owner name h in
     let isPrivate := (isPrivate || negb (Host project =? GitHubHost ctx)%string)%bool in
     ret (Some (mkTarget owner name project isPrivate))) args
    = (let own := if originCase args then User hc else o in
       let nm := if originCase args then repoName else name' in
       let same := (ToLower ctx own =? ToLower ctx (User hc))%string in
       let owner := if same then User hc else own in
       let project := NewProject ctx owner nm h in
       Ok (Some (mkTarget owner nm project
                   (hasFlag "-p" (Params args) || same
                    || negb (Host project =? GitHubHost ctx)%string)))
          (setParams args (remoteParams args o)))) as Htail.
  { intros repoName name'. cbv zeta.
    unfold bind at 1. unfold ask at 1.
    unfold bind at 1. rewrite parseRemotePrivateFlag_run.
    unfold remoteParams, originCase.
    destruct ((length (Words args) =? 2)%nat
              && (nth 1 (Words args) "" =? "origin")%string)%bool eqn:Eo.
    - unfold bind, ret.
      destruct (ToLower ctx (User hc) =? ToLower ctx (User hc))%string;
        [rewrite orb_true_r; reflexivity | rewrite orb_false_r; reflexivity].
    - destruct (length (Words args) =? 2)%nat eqn:E2.
      + unfold bind at 1. unfold bind at 1. unfold bind at 1. unfold ask at 1.
        unfold update, ret.
        pose proof (ReplaceParam_first args (removeFirst "-p" (Params args))
                      (nth 1 (Words args) "") o) as Hr. cbv zeta in Hr.
        destruct (negb (IndexOfParam (setParams args (removeFirst "-p" (Params args)))
                          (nth 1 (Words args) "") =? -1));
          rewrite Hr;
          (destruct (ToLower ctx o =? ToLower ctx (User hc))%string;
           [rewrite orb_true_r; reflexivity | rewrite orb_false_r; reflexivity]).
      + unfold bind at 1. unfold bind at 1. unfold update at 1.
        pose proof (RemoveParam_last args (removeFirst "-p" (Params args))) as Hr.
        cbv zeta in Hr. rewrite Hr. unfold ret.
        destruct (ToLower ctx o =? ToLower ctx (User hc))%string;
          [rewrite orb_true_r; reflexivity | rewrite orb_false_r; reflexivity]. }
  unfold remoteTarget.
  unfold bind at 1. unfold ask at 1. rewrite Hp.
  rewrite (eqb_false_of _ _ Ho).
  unfold resolves in Hres.
  destruct (n =? "")%string eqn:Hn.
  - unfold currentRepo in Hres.
    destruct (LocalRepo ctx) as [repo|e]; [|discriminate].
    unfold bind at 1. unfold Check at 1.
    destruct (MainProject repo) as [p|e].
    + injection Hres as <- <-.
      unfold bind at 1. unfold ret at 1.
      rewrite Hcfg. unfold bind at 1. unfold ret at 1.
      rewrite Htail. cbv zeta. destruct (originCase args); reflexivity.
    + destruct (RootDirName ctx) as [d|e']; [|discriminate].
      injection Hres as <- <-.
      unfold bind at 1. unfold bind at 1. unfold Check at 1. unfold ret at 1.
      rewrite Hcfg. unfold bind at 1. unfold ret at 1.
      rewrite Htail. cbv zeta. destruct (originCase args); reflexivity.
  - destruct Hres as ([repo Hrepo] & -> & ->). rewrite Hrepo.
    unfold bind at 1. unfold Check at 1.
    unfold bind at 1. unfold ret at 1.
    rewrite Hcfg. unfold bind at 1. unfold ret at 1.
    rewrite Htail. reflexivity.
Qed.

(** When transformRemoteArgs reaches the call of GitURL, the trailing
    parameter has parsed, the name is resolved and the host is
    configured. *)
Lemma remoteTarget_Some (ctx : Context) (args args' : Args) (t : Target) :
  remoteTarget ctx args = Ok (Some t) args' ->
  exists o n R h hc,
    parseRepoNameOwner (LastParam args) = (o, n) /\ o <> ""
    /\ resolves ctx n R h /\ DefaultHost ctx = ok hc.
Proof.
  intros H. unfold remoteTarget in H.
  unfold bind at 1 in H. unfold ask at 1 in H.
  destruct (parseRepoNameOwner (LastParam args)) as [o n] eqn:Hp.
  destruct (String.eqb_spec o "") as [->|Ho]; [discriminate H|].
  exists o, n. unfold resolves, currentRepo.
  unfold bind at 1 in H. unfold Check at 1 in H.
  destruct (LocalRepo ctx) as [repo|e]; [|discriminate H].
  unfold bind at 1 in H.
  destruct (n =? "")%string.
  - destruct (MainProject repo) as [p|e].
    + unfold ret at 1 in H. unfold bind at 1 in H.
      destruct (DefaultHost ctx) as [hc|e]; [|discriminate H].
      exists (Name p), (Host p), hc. auto.
    + unfold bind at 1 in H. unfold Check at 1 in H.
      destruct (RootDirName ctx) as [d|e']; [|discriminate H].
      unfold ret at 1 in H. unfold bind at 1 in H.
      destruct (DefaultHost ctx) as [hc|e']; [|discriminate H].
      exists d, "", hc. auto.
  - unfold ret at 1 in H. unfold bind at 1 in H.
    destruct (DefaultHost ctx) as [hc|e]; [|discriminate H].
    exists "", "", hc. repeat split; eauto.
Qed.

(** ** Counting a flag among the parameters *)

Lemma count_removeFirst (v : string) (l : list string) :
  count_occ string_dec (removeFirst v l) v = pred (count_occ string_dec l v).
Proof.
  induction l as [|p l IH]; simpl; [reflexivity|].
  destruct (String.eqb_spec p v) as [->|Hp].
  - destruct (string_dec v v); [reflexivity | congruence].
  - simpl. destruct (string_dec p v); [congruence | assumption].
Qed.

Lemma count_replaceFirst (w x v : string) (l : list string) :
  w <> v -> x <> v ->
  count_occ string_dec (replaceFirst w x l) v = count_occ string_dec l v.
Proof.
  intros Hw Hx. induction l as [|p l IH]; simpl; [reflexivity|].
  destruct (String.eqb_spec p w) as [->|Hp]; simpl.
  - destruct (string_dec x v), (string_dec w v); congruence.
  - destruct (string_dec p v); congruence.
Qed.

Lemma count_removelast (v : string) (l : list string) (d : string) :
  last l d <> v ->
  count_occ string_dec (removelast l) v = count_occ string_dec l v.
Proof.
  induction l as [|p l IH]; [reflexivity|].
  destruct l as [|q l].
  - simpl. intros Hp. destruct (string_dec p v); congruence.
  - intros Hl. change (removelast (p :: q :: l)) with (p :: removelast (q :: l)).
    change (last (p :: q :: l) d) with (last (q :: l) d) in Hl.
    cbn [count_occ]. rewrite (IH Hl). reflexivity.
Qed.

Lemma last_removeFirst (v : string) (l : list string) (d : string) :
  last l d <> v -> last (removeFirst v l) d = last l d.
Proof.
  induction l as [|p l IH]; [reflexivity|].
  destruct l as [|q l].
  - simpl. intros Hp. destruct (String.eqb_spec p v); [congruence | reflexivity].
  - intros Hl. change (last (p :: q :: l) d) with (last (q :: l) d) in *.
    specialize (IH Hl).
    change (removeFirst v (p :: q :: l))
      with (if (p =? v)%string then q :: l else p :: removeFirst v (q :: l)).
    destruct (p =? v)%string; [reflexivity|].
    destruct (removeFirst v (q :: l)) as [|x X] eqn:EX; [|exact IH].
    exfalso. simpl in EX. destruct (String.eqb_spec q v) as [->|Hq].
    + subst l. simpl in Hl. congruence.
    + discriminate EX.
Qed.

Lemma Words_not_flag (args : Args) (w : string) :
  In w (Words args) -> Strings.HasPrefix w "-" = false.
Proof.
  unfold Words. intros H. apply filter_In in H as [_ H].
  apply negb_true_iff in H. exact H.
Qed.

Lemma not_flag_neq (w : string) : Strings.HasPrefix w "-" = false -> w <> "-p".
Proof. intros H ->. discriminate H. Qed.

(** The rewriting of the parameters takes out one [-p] and no more. *)
Lemma remoteParams_flag (args : Args) (o n : string) :
  parseRepoNameOwner (LastParam args) = (o, n) -> o <> "" ->
  count_occ string_dec (remoteParams args o) "-p"
  = pred (count_occ string_dec (Params args) "-p").
Proof.
  intros Hp Ho. unfold remoteParams.
  destruct (originCase args); [apply count_removeFirst|].
  destruct (length (Words args) =? 2)%nat eqn:E2.
  - rewrite count_replaceFirst; [apply count_removeFirst | |].
    + apply not_flag_neq, (Words_not_flag args), nth_In.
      apply Nat.eqb_eq in E2. lia.
    + apply not_flag_neq, OwnerRe_not_flag.
      apply (parse_owner_shape _ _ _ Hp Ho).
  - assert (LastParam args <> "-p") as Hl.
    { intros E. rewrite E in Hp. vm_compute in Hp. congruence. }
    rewrite (count_removelast _ _ "").
    + apply count_removeFirst.
    + rewrite last_removeFirst; exact Hl.
Qed.

(** ** Visibility *)

(** C3. For every invocation the remote rule transforms, the visibility
    passed to GitURL is true if and only if [-p] was among the parameters
    (one [-p] is then taken out of them), or the owner equals the
    authenticated user ignoring case, or the host of the project is not
    GitHubHost. The owner is the one line 99 compares: the parsed owner,
    or the authenticated user where the [origin] special case has put it
    in its place. *)
Theorem visibility_rule (ctx : Context) (args args' : Args) (t : Target) :
  remoteTarget ctx args = Ok (Some t) args' ->
  exists hc,
    DefaultHost ctx = ok hc
    /\ t_isPrivate t
       = (hasFlag "-p" (Params args)
          || (ToLower ctx (ownerCompared args hc) =? ToLower ctx (User hc))%string
          || negb (Host (t_project t) =? GitHubHost ctx)%string)%bool
    /\ count_occ string_dec (Params args') "-p"
       = pred (count_occ string_dec (Params args) "-p")
    /\ transformRemoteArgs ctx args
       = Ok tt (AppendParams args'
                  [GitURL ctx (t_project t) (t_name t) (t_owner t) (t_isPrivate t)]).
Proof.
  intros H.
  destruct (remoteTarget_Some _ _ _ _ H) as (o & n & R & h & hc & Hp & Ho & Hres & Hcfg).
  pose proof (remoteTarget_run ctx args o n R h hc Hp Ho Hres Hcfg) as Hrun.
  cbv zeta in Hrun. rewrite Hrun in H. injection H as <- <-.
  exists hc. split; [assumption|]. unfold ownerCompared. rewrite Hp.
  cbn [fst t_isPrivate t_project].
  split; [reflexivity|]. split.
  - cbn [Params setParams]. apply (remoteParams_flag args o n Hp Ho).
  - unfold transformRemoteArgs, bind. rewrite Hrun. reflexivity.
Qed.

Lemma visibility_rule_witness :
  exists hc,
    DefaultHost sample = ok hc
    /\ true
       = (hasFlag "-p" ["add"; "-p"; "mislav"]
          || (ToLower sample
                (ownerCompared (cmdline "remote" ["add"; "-p"; "mislav"]) hc)
              =? ToLower sample (User hc))%string
          || negb ("github.com" =? GitHubHost sample)%string)%bool
    /\ count_occ string_dec ["add"; "mislav"] "-p"
       = pred (count_occ string_dec ["add"; "-p"; "mislav"] "-p")
    /\ transformRemoteArgs sample (cmdline "remote" ["add"; "-p"; "mislav"])
       = Ok tt (cmdline "remote" ["add"; "mislav"; "git@github.com:mislav/gh.git"]).
Proof.
  apply (visibility_rule sample (cmdline "remote" ["add"; "-p"; "mislav"])
           (cmdline "remote" ["add"; "mislav"])
           (mkTarget "mislav" "gh" (mkProject "gh" "mislav" "github.com") true)).
  reflexivity.
Defined.

Example visibility_public :
  remoteTarget sample (cmdline "remote" ["add"; "-f"; "mislav"])
  = Ok (Some (mkTarget "mislav" "gh" (mkProject "gh" "mislav" "github.com") false))
       (cmdline "remote" ["add"; "-f"; "mislav"]).
Proof. reflexivity. Qed.

Example visibility_origin :
  ownerCompared (cmdline "remote" ["add"; "origin"]) (mkHost "jingweno") = "jingweno"
  /\ remoteTarget sample (cmdline "remote" ["add"; "origin"])
     = Ok (Some (mkTarget "jingweno" "gh" (mkProject "gh" "jingweno" "github.com") true))
          (cmdline "remote" ["add"; "origin"]).
Proof. split; reflexivity. Qed.

(** ** The casing of the owner *)

(** C10. When the parsed owner equals the authenticated user ignoring
    case, the owner that goes into the project and into the appended URL
    is the authenticated user as stored. *)
Theorem owner_casing (ctx : Context) (args args' : Args) (t : Target)
    (hc : HostConfig) :
  remoteTarget ctx args = Ok (Some t) args' ->
  DefaultHost ctx = ok hc ->
  ToLower ctx (fst (parseRepoNameOwner (LastParam args))) = ToLower ctx (User hc) ->
  t_owner t = User hc
  /\ (exists host, t_project t = NewProject ctx (User hc) (t_name t) host)
  /\ transformRemoteArgs ctx args
     = Ok tt (AppendParams args'
                [GitURL ctx (t_project t) (t_name t) (User hc) true]).
Proof.
  intros H Hcfg Hsame.
  destruct (remoteTarget_Some _ _ _ _ H) as (o & n & R & h & hc' & Hp & Ho & Hres & Hcfg').
  assert (hc' = hc) as -> by congruence.
  pose proof (remoteTarget_run ctx args o n R h hc Hp Ho Hres Hcfg) as Hrun.
  cbv zeta in Hrun. rewrite Hp in Hsame. cbn [fst] in Hsame.
  assert ((ToLower ctx (if originCase args then User hc else o)
           =? ToLower ctx (User hc))%string = true) as Heq.
  { destruct (originCase args); [apply String.eqb_refl|].
    rewrite Hsame. apply String.eqb_refl. }
  rewrite Heq in Hrun. rewrite orb_true_r in Hrun. cbn [orb] in Hrun.
  unfold transformRemoteArgs, bind.
  rewrite Hrun in H |- *. injection H as <- <-.
  cbn [t_owner t_project t_name t_isPrivate].
  split; [reflexivity|]. split; [eexists; reflexivity | reflexivity].
Qed.

Lemma owner_casing_witness :
  "jingweno" = User (mkHost "jingweno")
  /\ (exists host, mkProject "gh" "jingweno" "github.com"
                   = NewProject sample (User (mkHost "jingweno")) "gh" host)
  /\ transformRemoteArgs sample (cmdline "remote" ["set-url"; "origin"; "JingWeno"])
     = Ok tt (cmdline "remote" ["set-url"; "origin"; "git@github.com:jingweno/gh.git"]).
Proof.
  apply (owner_casing sample (cmdline "remote" ["set-url"; "origin"; "JingWeno"])
           (cmdline "remote" ["set-url"; "origin"])
           (mkTarget "jingweno" "gh" (mkProject "gh" "jingweno" "github.com") true)
           (mkHost "jingweno")); reflexivity.
Defined.

(** ** The shapes of [remote add] *)

Lemma OwnerRe_neq_flag (s : string) : OwnerRe s = true -> (s =? "-p")%string = false.
Proof.
  intros H. apply String.eqb_neq, not_flag_neq, OwnerRe_not_flag, H.
Qed.

Lemma Words_pair (cmd k w : string) (q : list Cmd) (noop : bool) :
  Strings.HasPrefix k "-" = false -> Strings.HasPrefix w "-" = false ->
  Words (mkArgs cmd [k; w] q noop) = [k; w].
Proof.
  intros Hk Hw. unfold Words. cbn [Params filter]. rewrite Hk, Hw. reflexivity.
Qed.

Lemma remote_enters (ctx : Context) (args : Args) :
  Params args <> [] ->
  FirstParam args = "add" \/ FirstParam args = "set-url" ->
  remote ctx args = transformRemoteArgs ctx args.
Proof.
  intros Hne Hkey. unfold remote, IsParamsEmpty.
  destruct (Params args); [contradiction|].
  destruct Hkey as [-> | ->]; reflexivity.
Qed.

(** C5, amended. [remote add NAME], for a bare owner NAME and no flags,
    becomes [remote add NAME <url>]: the name is that of the current
    repository, the owner is NAME (the authenticated user when NAME is
    [origin]), written as the authenticated user stores it when the two
    are equal ignoring case, and the URL is public unless the owner is
    the authenticated user or the host of the project is not
    GitHubHost. *)
Theorem remote_add_owner (ctx : Context) (cmd : string) (q : list Cmd)
    (noop : bool) (NAME R h : string) (hc : HostConfig) :
  bareOwner NAME ->
  currentRepo ctx = Some (R, h) ->
  DefaultHost ctx = ok hc ->
  let own := if (NAME =? "origin")%string then User hc else NAME in
  let same := (ToLower ctx own =? ToLower ctx (User hc))%string in
  let owner := if same then User hc else own in
  let project := NewProject ctx owner R h in
  remote ctx (mkArgs cmd ["add"; NAME] q noop)
  = Ok tt (mkArgs cmd
             ["add"; NAME;
              GitURL ctx project R owner
                (same || negb (Host project =? GitHubHost ctx)%string)]
             q noop).
Proof.
  intros Hname Hrepo Hcfg. cbv zeta.
  set (args := mkArgs cmd ["add"; NAME] q noop).
  assert (parseRepoNameOwner (LastParam args) = (NAME, "")) as Hp
    by (apply parse_bareOwner; exact Hname).
  pose proof (OwnerRe_not_flag _ Hname) as Hnf.
  pose proof (OwnerRe_neq_flag _ Hname) as Hnp.
  assert (Words args = ["add"; NAME]) as Hw
    by (apply Words_pair; [reflexivity | exact Hnf]).
  assert (originCase args = (NAME =? "origin")%string) as Ho
    by (unfold originCase; rewrite Hw; reflexivity).
  assert (remoteParams args NAME = ["add"; NAME]) as Hps.
  { unfold remoteParams. rewrite Ho, Hw. cbn [Params args removeFirst].
    change ("add" =? "-p")%string with false. cbv iota. rewrite Hnp.
    destruct (NAME =? "origin")%string; [reflexivity|].
    cbn [length Nat.eqb nth replaceFirst].
    destruct (String.eqb_spec "add" NAME) as [<-|_]; [reflexivity|].
    rewrite String.eqb_refl. reflexivity. }
  assert (hasFlag "-p" (Params args) = false) as Hf.
  { unfold hasFlag. cbn [Params args existsb].
    rewrite (String.eqb_sym "-p" NAME), Hnp. reflexivity. }
  pose proof (remoteTarget_run ctx args NAME "" R h hc Hp
                (OwnerRe_nonempty _ Hname) Hrepo Hcfg) as Hrun.
  cbv zeta in Hrun. rewrite Ho, Hps, Hf in Hrun.
  rewrite remote_enters by (try discriminate; left; reflexivity).
  unfold transformRemoteArgs, bind. rewrite Hrun.
  unfold update, AppendParams. cbn [t_project t_name t_owner t_isPrivate orb].
  destruct (NAME =? "origin")%string; reflexivity.
Qed.

Lemma remote_add_owner_witness :
  remote sample (cmdline "remote" ["add"; "mislav"])
  = Ok tt (cmdline "remote" ["add"; "mislav"; "git://github.com/mislav/gh.git"]).
Proof.
  apply (remote_add_owner sample "remote" [] false "mislav" "gh" "github.com"
           (mkHost "jingweno")); reflexivity.
Defined.

(** C5 as worded does not hold: NAME stays in the argument list, before
    the URL; [origin] as NAME gives the authenticated user as the owner;
    and on a host other than GitHubHost the URL is private for any
    owner. *)
Lemma remote_add_owner_counterexample :
  (forall url, remote sample (cmdline "remote" ["add"; "mislav"])
               <> Ok tt (cmdline "remote" ["add"; url]))
  /\ remote sample (cmdline "remote" ["add"; "origin"])
     = Ok tt (cmdline "remote" ["add"; "origin"; "git@github.com:jingweno/gh.git"])
  /\ remote (mkContext (ok (mkRepo (ok (mkProject "gh" "jingweno" "git.corp.example"))))
                       (RootDirName sample) (DefaultHost sample)
                       (FormatError sample) (NewProject sample) (GitURL sample)
                       (GitHubHost sample) (ToLower sample) (TempDir sample)
                       (Version sample))
            (cmdline "remote" ["add"; "mislav"])
     = Ok tt (cmdline "remote"
                ["add"; "mislav"; "git@git.corp.example:mislav/gh.git"]).
Proof.
  split; [|split]; [|reflexivity|reflexivity].
  intros url H. vm_compute in H. discriminate H.
Qed.

Lemma pair_not_flag (o n : string) :
  OwnerRe o = true -> Strings.HasPrefix (o ++ "/" ++ n) "-" = false.
Proof.
  intros Ho. pose proof (OwnerRe_not_flag _ Ho) as H.
  destruct o as [|c r]; [discriminate Ho|].
  unfold Strings.HasPrefix in *. cbn [cut append] in *.
  destruct (Ascii.eqb "-" c); [discriminate H | reflexivity].
Qed.





(** ** The [origin] special case *)

Lemma last_In (l : list string) (d : string) : l <> [] -> In (last l d) l.
Proof.
  induction l as [|x l IH]; [contradiction|]. intros _.
  destruct l as [|y l]; [left; reflexivity|].
  right. apply IH. discriminate.
Qed.

Lemma last_filter (f : string -> bool) (l : list string) (d : string) :
  l <> [] -> f (last l d) = true -> last (filter f l) d = last l d.
Proof.
  induction l as [|x l IH]; [contradiction|]. intros _ Hf.
  destruct l as [|y l].
  - cbn [last] in Hf. cbn [filter]. rewrite Hf. reflexivity.
  - change (last (x :: y :: l) d) with (last (y :: l) d) in *.
    specialize (IH ltac:(discriminate) Hf).
    change (filter f (x :: y :: l))
      with (if f x then x :: filter f (y :: l) else filter f (y :: l)).
    destruct (f x); [|exact IH].
    destruct (filter f (y :: l)) as [|z zs] eqn:E; [|exact IH].
    exfalso. assert (In (last (y :: l) d) (filter f (y :: l))) as Hin
      by (apply filter_In; split; [apply last_In; discriminate | exact Hf]).
    rewrite E in Hin. exact Hin.
Qed.

(** A trailing parameter that parses is not a flag. *)
Lemma parsed_not_flag (s o n : string) :
  parseRepoNameOwner s = (o, n) -> o <> "" -> Strings.HasPrefix s "-" = false.
Proof.
  intros Hp Ho. destruct (parse_owner_shape _ _ _ Hp Ho) as [Hown [[_ ->] | [_ ->]]].
  - apply OwnerRe_not_flag, Hown.
  - apply pair_not_flag, Hown.
Qed.

(** When the non-flag tokens are the sub-key and [origin], a trailing
    parameter that parses is [origin] itself. *)
Lemma origin_is_trailing (args : Args) (key : string) :
  Words args = [key; "origin"] ->
  fst (parseRepoNameOwner (LastParam args)) <> "" ->
  LastParam args = "origin".
Proof.
  intros Hw Hp. destruct (parseRepoNameOwner (LastParam args)) as [o n] eqn:E.
  cbn [fst] in Hp. pose proof (parsed_not_flag _ _ _ E Hp) as Hnf.
  assert (Params args <> []) as Hne.
  { intros H. unfold LastParam in E. rewrite H in E. cbn in E.
    injection E as <- _. contradiction. }
  unfold LastParam in *. unfold Words in Hw.
  rewrite <- (last_filter (fun p => negb (Strings.HasPrefix p "-")) _ "" Hne)
    by (rewrite Hnf; reflexivity).
  rewrite Hw. reflexivity.
Qed.

(** The trailing parameter of a transformed invocation is still there
    once [-p] is taken out: RemoveParam is called in range. *)
Lemma trailing_stays (args : Args) (o n : string) :
  parseRepoNameOwner (LastParam args) = (o, n) -> o <> "" ->
  last (removeFirst "-p" (Params args)) "" = LastParam args
  /\ removeFirst "-p" (Params args) <> [].
Proof.
  intros Hp Ho.
  assert (LastParam args <> "-p") as Hl
    by (apply not_flag_neq, (parsed_not_flag _ _ _ Hp Ho)).
  assert (last (removeFirst "-p" (Params args)) "" = LastParam args) as Hlast
    by (apply last_removeFirst, Hl).
  split; [exact Hlast|]. intros E. rewrite E in Hlast. cbn in Hlast.
  rewrite <- Hlast in Hp. cbn in Hp. injection Hp as <- _. contradiction.
Qed.

(** C2, amended. When the non-flag tokens of a [remote add|set-url]
    invocation are the sub-key and the literal [origin], and [origin] is
    the trailing parameter, the owner that builds the appended URL is the
    authenticated user and the name is that of the current repository;
    the parameters stay, one [-p] apart, and the URL, always private, is
    appended. *)
Theorem origin_substitution (ctx : Context) (args : Args) (key R h : string)
    (hc : HostConfig) :
  FirstParam args = "add" \/ FirstParam args = "set-url" ->
  Words args = [key; "origin"] ->
  LastParam args = "origin" ->
  currentRepo ctx = Some (R, h) ->
  DefaultHost ctx = ok hc ->
  let project := NewProject ctx (User hc) R h in
  remoteTarget ctx args
  = Ok (Some (mkTarget (User hc) R project true))
       (setParams args (removeFirst "-p" (Params args)))
  /\ remote ctx args
     = Ok tt (setParams args
                (removeFirst "-p" (Params args)
                 ++ [GitURL ctx project R (User hc) true])).
Proof.
  intros Hkey Hw Hlast Hrepo Hcfg. cbv zeta.
  assert (originCase args = true) as Hoc
    by (unfold originCase; rewrite Hw; reflexivity).
  assert (parseRepoNameOwner (LastParam args) = ("origin", "")) as Hp
    by (rewrite Hlast; reflexivity).
  pose proof (remoteTarget_run ctx args "origin" "" R h hc Hp
                ltac:(discriminate) Hrepo Hcfg) as Hrun.
  cbv zeta in Hrun. unfold remoteParams in Hrun. rewrite Hoc in Hrun.
  rewrite String.eqb_refl, orb_true_r in Hrun. cbn [orb] in Hrun.
  split; [exact Hrun|].
  rewrite remote_enters.
  - unfold transformRemoteArgs, bind. rewrite Hrun. reflexivity.
  - intros E. unfold LastParam in Hlast. rewrite E in Hlast. discriminate Hlast.
  - exact Hkey.
Qed.

Lemma origin_substitution_witness :
  remoteTarget sample (cmdline "remote" ["add"; "-f"; "-p"; "origin"])
  = Ok (Some (mkTarget "jingweno" "gh" (mkProject "gh" "jingweno" "github.com") true))
       (cmdline "remote" ["add"; "-f"; "origin"])
  /\ remote sample (cmdline "remote" ["add"; "-f"; "-p"; "origin"])
     = Ok tt (cmdline "remote"
                ["add"; "-f"; "origin"; "git@github.com:jingweno/gh.git"]).
Proof.
  apply (origin_substitution sample (cmdline "remote" ["add"; "-f"; "-p"; "origin"])
           "add" "gh" "github.com" (mkHost "jingweno")); reflexivity || (left; reflexivity).
Defined.

(** C2 as worded does not hold: in [remote add origin foo/bar] the
    literal [origin] follows the sub-key, and the URL is built from the
    owner and name of the trailing token, not from the authenticated user
    and the current repository. *)
Lemma origin_substitution_counterexample :
  let args := cmdline "remote" ["add"; "origin"; "foo/bar"] in
  nth 1 (Words args) "" = "origin"
  /\ DefaultHost sample = ok (mkHost "jingweno")
  /\ currentRepo sample = Some ("gh", "github.com")
  /\ remoteTarget sample args
     = Ok (Some (mkTarget "foo" "bar" (mkProject "bar" "foo" "github.com") false))
          (cmdline "remote" ["add"; "origin"])
  /\ remote sample args
     = Ok tt (cmdline "remote" ["add"; "origin"; "git://github.com/foo/bar.git"])
  /\ "foo" <> "jingweno" /\ "bar" <> "gh".
Proof.
  cbv zeta. repeat split; try reflexivity; discriminate.
Qed.

(** ** Paths *)

Lemma lastElem_plain (s : string) :
  existsb_s isSlash s = false -> Filepath.lastElem s = s.
Proof.
  destruct s as [|c r]; [reflexivity|]. simpl.
  intros H. apply orb_false_iff in H as [Hc Hr]. rewrite Hr, Hc. reflexivity.
Qed.

Lemma lastElem_app_plain (u e : string) :
  existsb_s isSlash e = false ->
  Filepath.lastElem (u ++ e) = Filepath.lastElem u ++ e.
Proof.
  intros He. induction u as [|c u IH].
  - simpl. apply lastElem_plain, He.
  - cbn [append Filepath.lastElem]. rewrite existsb_s_app, He, orb_false_r.
    destruct (existsb_s isSlash u); [exact IH|].
    destruct (isSlash c); reflexivity.
Qed.

Lemma lastElem_after_slash (a b : string) :
  existsb_s isSlash b = false -> Filepath.lastElem (a ++ "/" ++ b) = b.
Proof.
  intros Hb. induction a as [|c a IH].
  - simpl. rewrite Hb. reflexivity.
  - cbn [append Filepath.lastElem].
    rewrite existsb_s_app. simpl. rewrite orb_true_r. exact IH.
Qed.

Lemma lastElem_suffix (s : string) : exists a, s = a ++ Filepath.lastElem s.
Proof.
  induction s as [|c r [a IH]].
  - exists "". reflexivity.
  - cbn [Filepath.lastElem]. destruct (existsb_s isSlash r).
    + exists (String c a). simpl. rewrite <- IH. reflexivity.
    + destruct (isSlash c).
      * exists (String c ""). reflexivity.
      * exists "". reflexivity.
Qed.

Lemma trimSlashes_id (a : string) (c : ascii) :
  isSlash c = false ->
  Filepath.trimSlashes (a ++ String c "") = a ++ String c "".
Proof.
  intros Hc. induction a as [|x a IH].
  - simpl. rewrite Hc. reflexivity.
  - cbn [append Filepath.trimSlashes].
    rewrite forallb_s_app. simpl. rewrite Hc. rewrite andb_false_r.
    rewrite IH. reflexivity.
Qed.

Lemma fromLastDot_none (s : string) :
  existsb_s (Ascii.eqb ".") s = false -> Filepath.fromLastDot s = "".
Proof.
  destruct s as [|c r]; [reflexivity|]. cbn [existsb_s Filepath.fromLastDot].
  intros H. apply orb_false_iff in H as [Hc Hr]. rewrite Hr.
  rewrite Ascii.eqb_sym, Hc. reflexivity.
Qed.

Lemma fromLastDot_app (x e : string) :
  existsb_s (Ascii.eqb ".") e = false ->
  Filepath.fromLastDot (x ++ String "." e) = String "." e.
Proof.
  intros He. induction x as [|c x IH].
  - simpl. rewrite He. reflexivity.
  - cbn [append Filepath.fromLastDot].
    rewrite existsb_s_app. simpl. rewrite orb_true_r. exact IH.
Qed.

Lemma fromLastDot_suffix (s : string) : exists y, s = y ++ Filepath.fromLastDot s.
Proof.
  induction s as [|c r [y IH]].
  - exists "". reflexivity.
  - cbn [Filepath.fromLastDot]. destruct (existsb_s (Ascii.eqb ".") r).
    + exists (String c y). simpl. rewrite <- IH. reflexivity.
    + destruct (Ascii.eqb c ".").
      * exists "". reflexivity.
      * exists (String c r). simpl. rewrite append_nil_r. reflexivity.
Qed.

Lemma extension_patch : extension ".patch".
Proof. exists "patc", "h"%char. repeat split. Qed.

Lemma extension_txt : extension ".txt".
Proof. exists "tx", "t"%char. repeat split. Qed.

Lemma Ext_app (u ext : string) : extension ext -> Filepath.Ext (u ++ ext) = ext.
Proof.
  intros (e & z & -> & Hdot & Hslash & _). unfold Filepath.Ext.
  rewrite lastElem_app_plain by exact Hslash.
  apply fromLastDot_app, Hdot.
Qed.

Lemma Base_app (u ext : string) :
  extension ext -> Filepath.Base (u ++ ext) = Filepath.lastElem u ++ ext.
Proof.
  intros (e & z & -> & Hdot & Hslash & Hz). unfold Filepath.Base.
  destruct (u ++ String "." (e ++ String z "")) eqn:E.
  { destruct u; discriminate E. }
  rewrite <- E. clear E.
  replace (u ++ String "." (e ++ String z ""))
    with ((u ++ String "." e) ++ String z "")
    by (rewrite append_assoc; reflexivity).
  rewrite trimSlashes_id by exact Hz.
  replace ((u ++ String "." e) ++ String z "")
    with (u ++ String "." (e ++ String z ""))
    by (rewrite append_assoc; reflexivity).
  rewrite lastElem_app_plain by exact Hslash.
  destruct (Filepath.lastElem u); reflexivity.
Qed.

(** The base name of a path whose extension is [ext] ends with [ext]. *)
Lemma Base_of_Ext (u ext : string) :
  extension ext -> Filepath.Ext u = ext ->
  exists stem, Filepath.Base u = stem ++ ext.
Proof.
  intros Hext HE. unfold Filepath.Ext in HE.
  destruct (lastElem_suffix u) as [a Ha].
  destruct (fromLastDot_suffix (Filepath.lastElem u)) as [y Hy].
  rewrite HE in Hy. rewrite Hy in Ha.
  assert (u = (a ++ y) ++ ext) as -> by (rewrite append_assoc; exact Ha).
  rewrite (Base_app _ _ Hext). eexists. reflexivity.
Qed.

(** ** The loop of transformApplyArgs *)

Lemma find_first {A : Type} (f : A -> bool) (pre post : list A) (x : A) :
  (forall p, In p pre -> f p = false) -> f x = true ->
  find f (pre ++ x :: post) = Some x.
Proof.
  intros Hpre Hx. induction pre as [|p pre IH]; simpl.
  - rewrite Hx. reflexivity.
  - rewrite (Hpre p) by (left; reflexivity).
    apply IH. intros y Hy. apply Hpre. right. exact Hy.
Qed.

Lemma find_split {A : Type} (f : A -> bool) (l : list A) (x : A) :
  find f l = Some x ->
  exists pre post,
    l = (pre ++ x :: post)%list /\ (forall p, In p pre -> f p = false) /\ f x = true.
Proof.
  induction l as [|p l IH]; simpl; [discriminate|].
  destruct (f p) eqn:Hp.
  - intros [= <-]. exists [], l. repeat split; [intros q []| exact Hp].
  - intros H. destruct (IH H) as (pre & post & -> & Hpre & Hx).
    exists (p :: pre), post. repeat split; [|exact Hx].
    intros q [<-|Hq]; [exact Hp | apply Hpre, Hq].
Qed.

Lemma indexFrom_first (v : string) (pre post : list string) (i : Z) :
  (forall p, In p pre -> p <> v) ->
  indexFrom i v (pre ++ v :: post) = i + Z.of_nat (length pre).
Proof.
  revert i. induction pre as [|p pre IH]; intros i Hpre.
  - simpl. rewrite String.eqb_refl. lia.
  - cbn [app indexFrom length].
    rewrite (eqb_false_of p v) by (apply Hpre; left; reflexivity).
    rewrite IH by (intros q Hq; apply Hpre; right; exact Hq). lia.
Qed.

Lemma replaceNth_middle (v x : string) (pre post : list string) :
  replaceNth (length pre) x (pre ++ v :: post) = (pre ++ x :: post)%list.
Proof.
  induction pre as [|p pre IH]; [reflexivity|].
  cbn [app length replaceNth]. rewrite IH. reflexivity.
Qed.

(** The first parameter that matches the URL pattern gives way to the
    patch file, and the fetch of the patch is queued. *)
Lemma apply_first (ctx : Context) (cmd : string) (q : list Cmd) (noop : bool)
    (pre post : list string) (url : string) :
  (forall p, In p pre -> urlMatch p = false) -> urlMatch url = true ->
  apply ctx (mkArgs cmd (pre ++ url :: post) q noop)
  = mkArgs cmd (pre ++ snd (patchOf ctx url) :: post)
      (q ++ [["curl"; "-#LA"; "gh " ++ Version ctx; fst (patchOf ctx url); "-o";
              snd (patchOf ctx url)]])
      noop.
Proof.
  intros Hpre Hurl. unfold apply, IsParamsEmpty. cbn [Params].
  destruct (pre ++ url :: post)%list eqn:E; [destruct pre; discriminate E|].
  rewrite <- E. clear E. cbn [negb].
  unfold transformApplyArgs. cbn [Params].
  rewrite (find_first _ _ _ _ Hpre Hurl).
  unfold IndexOfParam. cbn [Params].
  rewrite indexFrom_first.
  - destruct (patchOf ctx url) as [fetched patchFile]. cbn [fst snd].
    unfold Before, setParams. cbn [Command Params beforeChain Noop].
    rewrite Z.add_0_l, Nat2Z.id, replaceNth_middle. reflexivity.
  - intros p Hp ->. rewrite (Hpre _ Hp) in Hurl. discriminate.
Qed.

(** ** The expressions of [apply] *)

Lemma urlRegexp_host (scheme sub rest : string) :
  scheme = "http" \/ scheme = "https" ->
  sub = "" \/ sub = "gist." ->
  urlRegexp (scheme ++ "://" ++ sub ++ "github.com/" ++ rest) = Some sub.
Proof.
  intros [-> | ->] [-> | ->]; unfold urlRegexp, optional, Strings.HasPrefix;
    cbn [append cut]; reflexivity.
Qed.

Lemma urlMatch_scheme (s : string) :
  urlMatch s = true ->
  exists r, s = "http://" ++ r \/ s = "https://" ++ r.
Proof.
  unfold urlMatch, urlRegexp.
  destruct (cut "http" s) as [r|] eqn:Hc; [|discriminate].
  apply cut_Some in Hc. subst s. unfold optional.
  destruct (cut "s" r) as [r1|] eqn:Hs.
  - apply cut_Some in Hs. subst r.
    destruct (cut "://" r1) as [r2|] eqn:H2.
    + apply cut_Some in H2. subst r1. intros _. exists r2. right. reflexivity.
    + destruct (cut "://" ("s" ++ r1)) as [r2|] eqn:H3; [|discriminate].
      discriminate H3.
  - destruct (cut "://" r) as [r2|] eqn:H2; [|discriminate].
    apply cut_Some in H2. subst r. intros _. exists r2. left. reflexivity.
Qed.

Lemma stripFragment_id (s : string) :
  existsb_s (fun c => Ascii.eqb c "#") s = false -> stripFragment false s = s.
Proof.
  induction s as [|c r IH]; [reflexivity|].
  cbn [existsb_s stripFragment]. intros H.
  apply orb_false_iff in H as [Hc Hr]. rewrite Hc, (IH Hr).
  destruct r; reflexivity.
Qed.

Lemma spanDigits_app (n r : string) :
  forallb_s isDigit n = true ->
  match r with String c _ => isDigit c = false | EmptyString => True end ->
  spanDigits (n ++ r) = (n, r).
Proof.
  intros Hn Hr. induction n as [|c n IH].
  - destruct r as [|d r]; [reflexivity|]. simpl. cbn [spanDigits]. rewrite Hr.
    reflexivity.
  - cbn [forallb_s] in Hn. apply andb_true_iff in Hn as [Hc Hn].
    cbn [append spanDigits]. rewrite Hc, (IH Hn). reflexivity.
Qed.

Lemma spanDigits_spec (s ds r : string) :
  spanDigits s = (ds, r) -> s = ds ++ r /\ forallb_s isDigit ds = true.
Proof.
  revert ds. induction s as [|c s IH]; intros ds.
  - intros [= <- <-]. auto.
  - cbn [spanDigits]. destruct (isDigit c) eqn:Hc.
    + destruct (spanDigits s) as [ds' r'].
      intros [= <- <-]. destruct (IH ds' eq_refl) as [-> Hd].
      cbn [forallb_s]. rewrite Hc, Hd. auto.
    + intros [= <- <-]. auto.
Qed.

Lemma countSlash_app (a b : string) :
  countSlash (a ++ b) = (countSlash a + countSlash b)%nat.
Proof. induction a as [|c a IH]; simpl; [reflexivity | rewrite IH; lia]. Qed.

Lemma countSlash_none (f : ascii -> bool) (s : string) :
  (forall c, f c = true -> isSlash c = false) ->
  forallb_s f s = true -> countSlash s = 0%nat.
Proof.
  intros Hf. induction s as [|c s IH]; [reflexivity|].
  cbn [forallb_s countSlash]. intros H. apply andb_true_iff in H as [Hc Hs].
  rewrite (Hf _ Hc), (IH Hs). reflexivity.
Qed.

(** A text that pullRegexp matches from its start has three separators
    and starts with one. *)
Lemma pullAt_slashes (s p : string) :
  pullAt s = Some p ->
  countSlash s = 3%nat /\ exists r, s = String "/" r.
Proof.
  unfold pullAt. destruct (cut "/pull/" s) as [r|] eqn:Hc; [|discriminate].
  apply cut_Some in Hc. subst s.
  destruct (spanDigits r) as [ds r'] eqn:Hs.
  apply spanDigits_spec in Hs as [-> Hd].
  destruct (ds =? "")%string; [discriminate|].
  destruct r' as [|c w]; [discriminate|].
  destruct (isSlash c) eqn:Hsl; [|discriminate].
  destruct (forallb_s isWord w) eqn:Hw; [|discriminate].
  intros _. split; [|eexists; reflexivity].
  cbn [append countSlash]. rewrite countSlash_app. cbn [countSlash]. rewrite Hsl.
  rewrite (countSlash_none isDigit ds) by (intros; try apply isDigit_plain; assumption).
  rewrite (countSlash_none isWord w) by (intros; try apply isWord_plain; assumption).
  reflexivity.
Qed.

(** On a pull-request URL with a trailing word, pullRegexp matches at the
    [/pull/<N>] part and nowhere before. *)
Lemma pullRegexp_suffix (base n w : string) :
  n <> "" -> forallb_s isDigit n = true -> forallb_s isWord w = true ->
  pullRegexp (base ++ "/pull/" ++ n ++ "/" ++ w) = Some (base, "/pull/" ++ n).
Proof.
  intros Hne Hn Hw.
  assert (pullAt ("/pull/" ++ n ++ "/" ++ w) = Some ("/pull/" ++ n)) as Hat.
  { unfold pullAt. rewrite cut_app.
    rewrite spanDigits_app by (try exact Hn; reflexivity).
    rewrite (eqb_false_of _ _ Hne). cbn [append]. rewrite Hw. reflexivity. }
  remember ("/pull/" ++ n ++ "/" ++ w) as tail eqn:Htail.
  remember ("/pull/" ++ n) as pull eqn:Hpull.
  induction base as [|c base IH].
  - change ("" ++ tail) with tail.
    destruct tail as [|c t]; [discriminate Htail|].
    cbn [pullRegexp]. rewrite Hat. reflexivity.
  - change (String c base ++ tail) with (String c (base ++ tail)).
    cbn [pullRegexp].
    destruct (pullAt (String c (base ++ tail))) as [p|] eqn:Hp.
    + exfalso. apply pullAt_slashes in Hp as [Hcount [r Hr]].
      injection Hr as -> _.
      apply pullAt_slashes in Hat as [Hcount' _].
      cbn [countSlash] in Hcount. rewrite countSlash_app in Hcount.
      change (isSlash "/") with true in Hcount. cbv iota in Hcount. lia.
    + rewrite IH. reflexivity.
Qed.

(** ** Pull-request URLs *)

Lemma digits_no_slash (n : string) :
  forallb_s isDigit n = true -> existsb_s isSlash n = false.
Proof.
  apply forallb_s_none. intros c H. apply isDigit_plain in H. tauto.
Qed.

Lemma digits_no_dot (n : string) :
  forallb_s isDigit n = true -> existsb_s (Ascii.eqb ".") n = false.
Proof.
  apply forallb_s_none. intros c H. apply isDigit_plain in H. tauto.
Qed.

Lemma digits_no_hash (n : string) :
  forallb_s isDigit n = true -> existsb_s (fun c => Ascii.eqb c "#") n = false.
Proof.
  apply forallb_s_none. intros c H. apply isDigit_plain in H. tauto.
Qed.

Lemma word_no_hash (w : string) :
  forallb_s isWord w = true -> existsb_s (fun c => Ascii.eqb c "#") w = false.
Proof.
  apply forallb_s_none. intros c H. apply isWord_plain in H. tauto.
Qed.

(** What the loop body computes for a pull-request URL on the main host
    that ends in [/pull/<N>/<word>]. *)
Lemma patchOf_pull (ctx : Context) (scheme path n w : string) :
  scheme = "http" \/ scheme = "https" ->
  existsb_s (fun c => Ascii.eqb c "#") path = false ->
  n <> "" -> forallb_s isDigit n = true -> forallb_s isWord w = true ->
  let base := scheme ++ "://github.com/" ++ path in
  urlRegexp (base ++ "/pull/" ++ n ++ "/" ++ w) = Some ""
  /\ patchOf ctx (base ++ "/pull/" ++ n ++ "/" ++ w)
     = (base ++ "/pull/" ++ n ++ ".patch",
        Filepath.Join [TempDir ctx; n ++ ".patch"]).
Proof.
  intros Hscheme Hpath Hne Hn Hw base.
  set (url := base ++ "/pull/" ++ n ++ "/" ++ w).
  assert (urlRegexp url = Some "") as Hu.
  { unfold url, base. rewrite !append_assoc.
    apply (urlRegexp_host scheme "" _ Hscheme). left; reflexivity. }
  assert (stripFragment false url = url) as Hs.
  { apply stripFragment_id. unfold url, base.
    rewrite !existsb_s_app, Hpath, (digits_no_hash _ Hn), (word_no_hash _ Hw).
    destruct Hscheme as [-> | ->]; reflexivity. }
  assert (pullRegexp url = Some (base, "/pull/" ++ n)) as Hpr
    by (apply pullRegexp_suffix; assumption).
  assert (Filepath.Ext (base ++ "/pull/" ++ n) = "") as HE.
  { unfold Filepath.Ext.
    replace (base ++ "/pull/" ++ n) with ((base ++ "/pull") ++ "/" ++ n)
      by (rewrite !append_assoc; reflexivity).
    rewrite lastElem_after_slash by (apply digits_no_slash, Hn).
    apply fromLastDot_none, digits_no_dot, Hn. }
  assert (Filepath.Base ((base ++ "/pull/" ++ n) ++ ".patch") = n ++ ".patch") as HB.
  { rewrite (Base_app _ _ extension_patch).
    replace (base ++ "/pull/" ++ n) with ((base ++ "/pull") ++ "/" ++ n)
      by (rewrite !append_assoc; reflexivity).
    rewrite lastElem_after_slash by (apply digits_no_slash, Hn). reflexivity. }
  split; [exact Hu|].
  unfold patchOf. rewrite Hu, Hs. cbn [String.eqb Ascii.eqb negb].
  change ("" =? "gist.")%string with false. cbv iota. cbn [negb].
  rewrite Hpr, HE. change ("" =? ".patch")%string with false. cbv iota.
  rewrite HB. rewrite !append_assoc. reflexivity.
Qed.

(** C4. An [apply] invocation whose first parameter on the URL pattern is
    a pull-request URL with a [/files] or [/commits] suffix (any word
    after [/pull/<N>/]) gets exactly one more prerequisite, the fetch of
    the URL cut back to [/pull/<N>] with [.patch] appended; the parameter
    gives way, in place, to the file the fetch writes, in the temporary
    directory and named after the pull request; every other parameter
    stays, later URLs included. *)
Theorem apply_pull_request (ctx : Context) (cmd : string) (q : list Cmd)
    (noop : bool) (pre post : list string) (scheme path n w : string) :
  (forall p, In p pre -> urlMatch p = false) ->
  scheme = "http" \/ scheme = "https" ->
  existsb_s (fun c => Ascii.eqb c "#") path = false ->
  n <> "" -> forallb_s isDigit n = true ->
  forallb_s isWord w = true ->
  let pull := scheme ++ "://github.com/" ++ path ++ "/pull/" ++ n in
  let patchFile := Filepath.Join [TempDir ctx; n ++ ".patch"] in
  apply ctx (mkArgs cmd (pre ++ (pull ++ "/" ++ w) :: post) q noop)
  = mkArgs cmd (pre ++ patchFile :: post)
      (q ++ [["curl"; "-#LA"; "gh " ++ Version ctx; pull ++ ".patch"; "-o";
              patchFile]])
      noop.
Proof.
  intros Hpre Hscheme Hpath Hne Hn Hw. cbv zeta.
  destruct (patchOf_pull ctx scheme path n w Hscheme Hpath Hne Hn Hw) as [Hu Hpatch].
  cbv zeta in Hu, Hpatch.
  repeat rewrite append_assoc in Hu. repeat rewrite append_assoc in Hpatch.
  rewrite !append_assoc.
  rewrite apply_first; [|exact Hpre | unfold urlMatch; rewrite Hu; reflexivity].
  rewrite Hpatch. reflexivity.
Qed.

Lemma apply_pull_request_witness :
  apply sample
    (cmdline "apply"
       ["--3way"; "https://github.com/jingweno/gh/pull/55/files";
        "https://github.com/jingweno/gh/pull/56/commits"])
  = mkArgs "apply"
      ["--3way"; "/tmp/55.patch"; "https://github.com/jingweno/gh/pull/56/commits"]
      [["curl"; "-#LA"; "gh 2.2.0"; "https://github.com/jingweno/gh/pull/55.patch";
        "-o"; "/tmp/55.patch"]]
      false.
Proof.
  apply (apply_pull_request sample "apply" [] false ["--3way"]
           ["https://github.com/jingweno/gh/pull/56/commits"]
           "https" "jingweno/gh" "55" "files").
  - intros p [<- | []]. reflexivity.
  - right; reflexivity.
  - reflexivity.
  - discriminate.
  - reflexivity.
  - reflexivity.
Defined.

(** ** The name of the patch file *)

(** The fetched URL always carries the extension of its kind. *)
Lemma ensure_ext (u ext : string) :
  extension ext ->
  let fetched := if (Filepath.Ext u =? ext)%string then u else u ++ ext in
  Filepath.Ext fetched = ext /\ exists stem, Filepath.Base fetched = stem ++ ext.
Proof.
  intros Hext. cbv zeta.
  assert (Filepath.Ext (if (Filepath.Ext u =? ext)%string then u else u ++ ext) = ext) as HE.
  { destruct (String.eqb_spec (Filepath.Ext u) ext) as [E|_];
      [exact E | apply Ext_app, Hext]. }
  split; [exact HE | apply (Base_of_Ext _ _ Hext HE)].
Qed.

Example apply_gist :
  apply sample (cmdline "apply" ["https://gist.github.com/8da7fb575debd88c54cf"])
  = mkArgs "apply" ["/tmp/gist-8da7fb575debd88c54cf.txt"]
      [["curl"; "-#LA"; "gh 2.2.0";
        "https://gist.github.com/8da7fb575debd88c54cf.txt"; "-o";
        "/tmp/gist-8da7fb575debd88c54cf.txt"]]
      false.
Proof. reflexivity. Qed.

Example apply_gist_txt :
  apply sample (cmdline "apply" ["https://gist.github.com/8da7/raw/fix.txt#L3"])
  = mkArgs "apply" ["/tmp/gist-fix.txt"]
      [["curl"; "-#LA"; "gh 2.2.0"; "https://gist.github.com/8da7/raw/fix.txt";
        "-o"; "/tmp/gist-fix.txt"]]
      false.
Proof. reflexivity. Qed.

Example apply_commit :
  apply sample
    (cmdline "apply"
       ["--ignore-whitespace"; "https://github.com/jingweno/gh/commit/fdb9921"])
  = mkArgs "apply" ["--ignore-whitespace"; "/tmp/fdb9921.patch"]
      [["curl"; "-#LA"; "gh 2.2.0";
        "https://github.com/jingweno/gh/commit/fdb9921.patch"; "-o";
        "/tmp/fdb9921.patch"]]
      false.
Proof. reflexivity. Qed.

(** ** A cleaned path is not a URL *)

Lemma elements_plain (s : string) :
  Forall (fun e => existsb_s isSlash e = false) (Filepath.elements s).
Proof.
  induction s as [|c s IH]; [repeat constructor|].
  cbn [Filepath.elements]. destruct (isSlash c) eqn:Hc.
  - constructor; [reflexivity | exact IH].
  - destruct (Filepath.elements s) as [|e es].
    + constructor; [|constructor]. simpl. rewrite Hc. reflexivity.
    + inversion IH as [|? ? He Hes]; subst.
      constructor; [|exact Hes]. cbn [existsb_s]. rewrite Hc, He. reflexivity.
Qed.

Lemma cleanStep_plain (rooted : bool) (out : list string) (k : nat) (e : string) :
  Forall (fun x => plainElement x = true) out ->
  existsb_s isSlash e = false ->
  Forall (fun x => plainElement x = true)
         (fst (Filepath.cleanStep rooted (out, k) e)).
Proof.
  intros Hout He. unfold Filepath.cleanStep.
  destruct (e =? "")%string eqn:E0; [exact Hout|].
  destruct (e =? ".")%string; [exact Hout|].
  destruct (e =? "..")%string.
  - destruct (k <? length out)%nat.
    + destruct out; [constructor|]. inversion Hout; assumption.
    + destruct rooted; [exact Hout|]. constructor; [reflexivity | exact Hout].
  - constructor; [|exact Hout]. unfold plainElement. rewrite E0, He. reflexivity.
Qed.

Lemma clean_fold_plain (rooted : bool) (es : list string) (st : list string * nat) :
  Forall (fun e => existsb_s isSlash e = false) es ->
  Forall (fun x => plainElement x = true) (fst st) ->
  Forall (fun x => plainElement x = true)
         (fst (fold_left (Filepath.cleanStep rooted) es st)).
Proof.
  revert st. induction es as [|e es IH]; intros [out k] Hes Hst; [exact Hst|].
  inversion Hes as [|? ? He Hes']; subst. cbn [fold_left].
  apply IH; [exact Hes'|].
  destruct (Filepath.cleanStep rooted (out, k) e) as [out' k'] eqn:E.
  pose proof (cleanStep_plain rooted out k e Hst He) as H.
  rewrite E in H. exact H.
Qed.

Lemma joinElements_head (es : list string) :
  Forall (fun x => plainElement x = true) es -> es <> [] ->
  exists c r, Filepath.joinElements es = String c r /\ isSlash c = false.
Proof.
  intros Hes Hne. destruct es as [|e es]; [contradiction|].
  inversion Hes as [|? ? He _]; subst.
  unfold plainElement in He. apply andb_true_iff in He as [He1 He2].
  destruct e as [|c r]; [discriminate He1|].
  apply negb_true_iff in He2. cbn [existsb_s] in He2.
  apply orb_false_iff in He2 as [Hc _].
  exists c. destruct es; cbn [Filepath.joinElements append]; eauto.
Qed.

Lemma joinElements_no_url (es : list string) :
  Forall (fun x => plainElement x = true) es ->
  urlMatch (Filepath.joinElements es) = false.
Proof.
  intros Hes. destruct (urlMatch (Filepath.joinElements es)) eqn:Hm; [|reflexivity].
  exfalso. apply urlMatch_scheme in Hm as [r Hr].
  destruct es as [|e es]; [destruct Hr; discriminate|].
  inversion Hes as [|? ? He Hes']; subst.
  unfold plainElement in He. apply andb_true_iff in He as [_ He].
  apply negb_true_iff in He.
  destruct es as [|e2 es].
  - cbn [Filepath.joinElements] in Hr.
    destruct Hr as [-> | ->]; discriminate He.
  - assert (cutSlash (Filepath.joinElements (e :: e2 :: es))
            = Some (e, Filepath.joinElements (e2 :: es))) as Hcut
      by (apply cutSlash_app; exact He).
    destruct (joinElements_head (e2 :: es) Hes' ltac:(discriminate))
      as (c & t & Hj & Hc).
    rewrite Hj in Hcut.
    destruct Hr as [Hr | Hr]; rewrite Hr in Hcut; cbn in Hcut;
      injection Hcut as _ <- _; discriminate Hc.
Qed.

Lemma Clean_no_url (path : string) : urlMatch (Filepath.Clean path) = false.
Proof.
  unfold Filepath.Clean. destruct path as [|c p]; [reflexivity|].
  set (out := fst (fold_left (Filepath.cleanStep (isSlash c))
                     (Filepath.elements (String c p)) ([], 0%nat))).
  assert (Forall (fun x => plainElement x = true) (rev out)) as Hout.
  { apply Forall_rev, clean_fold_plain; [apply elements_plain | constructor]. }
  destruct (isSlash c).
  - reflexivity.
  - destruct out; [reflexivity|]. apply joinElements_no_url, Hout.
Qed.

(** The file the patch is written to never matches the URL pattern. *)
Lemma Join_no_url (elem : list string) : urlMatch (Filepath.Join elem) = false.
Proof.
  induction elem as [|e rest IH]; [reflexivity|].
  cbn [Filepath.Join]. destruct (e =? "")%string; [exact IH | apply Clean_no_url].
Qed.

(** ** Running a rule a second time *)

Lemma remote_unparsed (ctx : Context) (args : Args) :
  fst (parseRepoNameOwner (LastParam args)) = "" ->
  remote ctx args = Ok tt args.
Proof.
  intros H. unfold remote.
  rewrite (transformRemoteArgs_unparsed ctx args H).
  destruct (_ && _)%bool; reflexivity.
Qed.

Lemma neverNone_bind {A : Type} (m : M A) (k : A -> M (option Target)) :
  (forall x, neverNone (k x)) -> neverNone (bind m k).
Proof.
  intros Hk a a'. unfold bind. destruct (m a) as [x a1|e a1]; [apply Hk | discriminate].
Qed.

Lemma neverNone_ret (t : Target) : neverNone (ret (Some t)).
Proof. intros a a'. unfold ret. discriminate. Qed.

(** transformRemoteArgs returns early only on an empty owner, and then
    with the argument list as it was. *)
Lemma remoteTarget_None (ctx : Context) (args a1 : Args) :
  remoteTarget ctx args = Ok None a1 ->
  a1 = args /\ fst (parseRepoNameOwner (LastParam args)) = "".
Proof.
  unfold remoteTarget. unfold bind at 1. unfold ask at 1.
  destruct (parseRepoNameOwner (LastParam args)) as [o n].
  destruct (String.eqb_spec o "") as [->|Ho].
  - unfold ret. intros [= <-]. auto.
  - intros H. exfalso. revert H. apply neverNone_bind. intros repo.
    apply neverNone_bind. intros [[repoName host] name].
    apply neverNone_bind. intros hostConfig.
    apply neverNone_bind. intros words.
    apply neverNone_bind. intros isPrivate.
    apply neverNone_bind. intros [owner name'].
    destruct (_ =? _)%string; apply neverNone_ret.
Qed.

Lemma remote_rerun (ctx : Context) (args args' : Args) :
  (forall p n o b,
     existsb_s (fun c => Ascii.eqb c ":") (GitURL ctx p n o b) = true) ->
  remote ctx args = Ok tt args' -> remote ctx args' = Ok tt args'.
Proof.
  intros Hurl H. pose proof H as H0. unfold remote in H.
  destruct (_ && _)%bool.
  - unfold transformRemoteArgs, bind in H.
    destruct (remoteTarget ctx args) as [[t|] a1 | e a1] eqn:Ht.
    + unfold update in H. injection H as <-.
      apply remote_unparsed. unfold LastParam, AppendParams. cbn [Params setParams].
      rewrite last_last. rewrite parse_colon by apply Hurl. reflexivity.
    + apply remoteTarget_None in Ht as [-> Hp].
      unfold ret in H. injection H as <-. apply remote_unparsed, Hp.
    + discriminate H.
  - unfold ret in H. injection H as <-. exact H0.
Qed.

Lemma apply_unmatched (ctx : Context) (args : Args) :
  (forall p, In p (Params args) -> urlMatch p = false) ->
  apply ctx args = args.
Proof.
  intros H. unfold apply, transformApplyArgs.
  rewrite (find_none_of _ _ H). destruct (negb _); reflexivity.
Qed.

Lemma filter_none (f : string -> bool) (l : list string) :
  filter f l = [] -> forall p, In p l -> f p = false.
Proof.
  induction l as [|x l IH]; [intros _ p []|].
  cbn [filter]. destruct (f x) eqn:Hx; [discriminate|].
  intros H p [<- | Hp]; [exact Hx | apply IH; assumption].
Qed.

Lemma apply_rerun (ctx : Context) (args : Args) :
  (length (filter urlMatch (Params args)) <= 1)%nat ->
  apply ctx (apply ctx args) = apply ctx args.
Proof.
  intros Hone.
  destruct (find urlMatch (Params args)) as [url|] eqn:Hf.
  - apply find_split in Hf as (pre & post & Hps & Hpre & Hurl).
    destruct args as [cmd ps q noop]. cbn [Params] in *. subst ps.
    rewrite (apply_first ctx cmd q noop pre post url Hpre Hurl).
    apply apply_unmatched. cbn [Params].
    rewrite filter_app in Hone. cbn [filter] in Hone. rewrite Hurl in Hone.
    rewrite length_app in Hone. cbn [length] in Hone.
    assert (filter urlMatch post = []) as Hpost
      by (destruct (filter urlMatch post); [reflexivity | simpl in Hone; lia]).
    intros p Hp. apply in_app_or in Hp as [Hp | [<- | Hp]].
    + apply Hpre, Hp.
    + apply Join_no_url.
    + apply (filter_none _ _ Hpost), Hp.
  - assert (apply ctx args = args) as H
      by (unfold apply, transformApplyArgs; rewrite Hf;
          destruct (negb _); reflexivity).
    rewrite H. exact H.
Qed.

(** C7, amended. A second run of a rule on what its first run returned
    changes nothing and enqueues nothing: for [remote], because the
    appended URL, with its colon, is on neither grammar; for [apply],
    because the patch file is not on the URL pattern, provided no second
    parameter of the invocation was. *)
Theorem rerun_noop (ctx : Context) (c : Rule) (args args' : Args) :
  (forall p n o b,
     existsb_s (fun ch => Ascii.eqb ch ":") (GitURL ctx p n o b) = true) ->
  (c = cmdApply -> (length (filter urlMatch (Params args)) <= 1)%nat) ->
  Run ctx c args = Ok tt args' ->
  Run ctx c args' = Ok tt args'.
Proof.
  intros Hurl Hone. destruct c; cbn [Run].
  - apply remote_rerun, Hurl.
  - intros [= <-]. rewrite apply_rerun by (apply Hone; reflexivity). reflexivity.
Qed.

Lemma sampleURL_colon (p : Project) (n o : string) (b : bool) :
  existsb_s (fun ch => Ascii.eqb ch ":") (GitURL sample p n o b) = true.
Proof.
  cbn [GitURL sample]. unfold sampleURL. destruct b.
  - change ("git@" ++ Host p ++ ":" ++ o ++ "/" ++ n ++ ".git")
      with ("git@" ++ (Host p ++ (":" ++ o ++ "/" ++ n ++ ".git"))).
    rewrite !existsb_s_app. cbn [existsb_s append].
    change (Ascii.eqb ":" ":") with true.
    rewrite !orb_true_r. reflexivity.
  - reflexivity.
Qed.

Lemma rerun_noop_witness :
  Run sample cmdApply
    (mkArgs "apply" ["--check"; "/tmp/55.patch"]
       [["curl"; "-#LA"; "gh 2.2.0"; "https://github.com/jingweno/gh/pull/55.patch";
         "-o"; "/tmp/55.patch"]] false)
  = Ok tt
      (mkArgs "apply" ["--check"; "/tmp/55.patch"]
         [["curl"; "-#LA"; "gh 2.2.0"; "https://github.com/jingweno/gh/pull/55.patch";
           "-o"; "/tmp/55.patch"]] false).
Proof.
  apply (rerun_noop sample cmdApply
           (cmdline "apply" ["--check"; "https://github.com/jingweno/gh/pull/55/files"])).
  - apply sampleURL_colon.
  - intros _. simpl. lia.
  - reflexivity.
Defined.

Example rerun_remote :
  Run sample cmdRemote
    (cmdline "remote" ["add"; "mislav"; "git://github.com/mislav/gh.git"])
  = Ok tt (cmdline "remote" ["add"; "mislav"; "git://github.com/mislav/gh.git"]).
Proof. reflexivity. Qed.

(** C7 as worded does not hold for [apply] with two URLs: the first run
    rewrites the first, and a second run then rewrites the second and
    enqueues a second fetch. *)
Lemma rerun_counterexample :
  let args := cmdline "apply"
                ["https://github.com/jingweno/gh/pull/55";
                 "https://github.com/jingweno/gh/pull/56"] in
  let once := mkArgs "apply"
                ["/tmp/55.patch"; "https://github.com/jingweno/gh/pull/56"]
                [["curl"; "-#LA"; "gh 2.2.0";
                  "https://github.com/jingweno/gh/pull/55.patch"; "-o";
                  "/tmp/55.patch"]] false in
  Run sample cmdApply args = Ok tt once
  /\ Run sample cmdApply once
     = Ok tt (mkArgs "apply" ["/tmp/55.patch"; "/tmp/56.patch"]
                [["curl"; "-#LA"; "gh 2.2.0";
                  "https://github.com/jingweno/gh/pull/55.patch"; "-o";
                  "/tmp/55.patch"];
                 ["curl"; "-#LA"; "gh 2.2.0";
                  "https://github.com/jingweno/gh/pull/56.patch"; "-o";
                  "/tmp/56.patch"]] false)
  /\ Run sample cmdApply once <> Ok tt once.
Proof.
  cbv zeta. split; [reflexivity|]. split; [reflexivity|].
  intros H. vm_compute in H. discriminate H.
Qed.

(** * Further properties of the rules *)

(** ** parseRepoNameOwner and parseRemotePrivateFlag *)

(** X1. parseRepoNameOwner gives an owner exactly on its two grammars,
    and then the owner and the name are the parts of the text: the text
    is the owner alone, or the owner, a slash and the name. *)
Theorem parseRepoNameOwner_parts (s o n : string) :
  (parseRepoNameOwner s = (o, n) /\ o <> "")
  <-> (OwnerRe o = true
       /\ ((n = "" /\ s = o) \/ (NameRe n = true /\ s = o ++ "/" ++ n))).
Proof.
  split.
  - intros [Hp Ho]. apply (parse_owner_shape _ _ _ Hp Ho).
  - intros [Ho [[-> ->] | [Hn ->]]].
    + split; [apply parse_bareOwner, Ho | apply OwnerRe_nonempty, Ho].
    + split; [apply parse_ownerSlashName; assumption | apply OwnerRe_nonempty, Ho].
Qed.

Lemma removeFirst_split (v : string) (l : list string) :
  hasFlag v l = true ->
  exists pre post,
    l = (pre ++ v :: post)%list /\ ~ In v pre /\ removeFirst v l = (pre ++ post)%list.
Proof.
  induction l as [|p l IH]; [discriminate|].
  cbn [hasFlag existsb removeFirst]. rewrite (String.eqb_sym v p).
  destruct (String.eqb_spec p v) as [->|Hp].
  - intros _. exists [], l. repeat split. intros [].
  - cbn [orb]. intros H. destruct (IH H) as (pre & post & -> & Hpre & Hr).
    exists (p :: pre), post. rewrite Hr. repeat split.
    intros [E | Hin]; [congruence | contradiction].
Qed.

Lemma hasFlag_false (v : string) (l : list string) :
  hasFlag v l = false -> ~ In v l /\ removeFirst v l = l.
Proof.
  induction l as [|p l IH]; [intros _; split; [intros [] | reflexivity]|].
  cbn [hasFlag existsb removeFirst]. rewrite (String.eqb_sym v p).
  destruct (String.eqb_spec p v) as [->|Hp]; [discriminate|].
  cbn [orb]. intros H. destruct (IH H) as [Hin Hr]. rewrite Hr.
  split; [|reflexivity]. intros [E | Hin']; [congruence | contradiction].
Qed.

(** X2. parseRemotePrivateFlag never fails. Without a [-p] among the
    parameters it answers false and leaves the argument list alone; with
    one it answers true and takes out the first [-p] only: the parameters
    before and after it stay, in order. *)
Theorem parseRemotePrivateFlag_effect (args : Args) :
  (~ In "-p" (Params args) /\ parseRemotePrivateFlag args = Ok false args)
  \/ (exists pre post,
        Params args = (pre ++ "-p" :: post)%list
        /\ ~ In "-p" pre
        /\ parseRemotePrivateFlag args = Ok true (setParams args (pre ++ post))).
Proof.
  rewrite parseRemotePrivateFlag_run.
  destruct (hasFlag "-p" (Params args)) eqn:Hf.
  - right. destruct (removeFirst_split _ _ Hf) as (pre & post & Hl & Hpre & Hr).
    exists pre, post. rewrite Hr. auto.
  - left. destruct (hasFlag_false _ _ Hf) as [Hin Hr].
    rewrite Hr, setParams_same. auto.
Qed.

(** ** The expressions of [apply], as languages *)

(** X11. urlRegexp matches exactly the texts that start with [http] or
    [https], [://], an optional [gist.] and [github.com/]; group 1 is
    [gist.] exactly for the gist host. *)
Theorem urlRegexp_language (url g : string) :
  urlRegexp url = Some g
  <-> exists scheme rest,
        (scheme = "http" \/ scheme = "https")
        /\ (g = "" \/ g = "gist.")
        /\ url = scheme ++ "://" ++ g ++ "github.com/" ++ rest.
Proof.
  split.
  - unfold urlRegexp.
    destruct (cut "http" url) as [r|] eqn:Hc; [|discriminate].
    apply cut_Some in Hc. subst url.
    assert (forall s r1,
      match cut "://" r1 with
      | Some r2 =>
          optional "gist."
            (fun (gist : bool) (r3 : string) =>
               if Strings.HasPrefix r3 "github.com/"
               then Some (if gist then "gist." else "") else None) r2
      | None => None
      end = Some g ->
      exists rest, (g = "" \/ g = "gist.")
                   /\ s ++ r1 = s ++ "://" ++ g ++ "github.com/" ++ rest) as Hin.
    { intros s r1. destruct (cut "://" r1) as [r2|] eqn:H2; [|discriminate].
      apply cut_Some in H2. subst r1. unfold optional, Strings.HasPrefix.
      destruct (cut "gist." r2) as [r3|] eqn:H3.
      - apply cut_Some in H3. subst r2.
        destruct (cut "github.com/" r3) as [r4|] eqn:H4.
        + apply cut_Some in H4. subst r3. intros [= <-]. exists r4. auto.
        + destruct (cut "github.com/" ("gist." ++ r3)) as [r4|] eqn:H5;
            [discriminate H5 | discriminate].
      - destruct (cut "github.com/" r2) as [r4|] eqn:H4; [|discriminate].
        apply cut_Some in H4. subst r2. intros [= <-]. exists r4. auto. }
    unfold optional at 1.
    destruct (cut "s" r) as [r1|] eqn:Hs.
    + apply cut_Some in Hs. subst r.
      match goal with
      | |- match ?m with Some y => Some y | None => ?k end = _ -> _ =>
          destruct m as [y|] eqn:Hm
      end.
      * intros [= ->]. destruct (Hin "https" r1 Hm) as (rest & Hg & E).
        exists "https", rest. repeat split; [auto | exact Hg | exact E].
      * intros H. exfalso. cbn in H. discriminate H.
    + intros H. destruct (Hin "http" r H) as (rest & Hg & E).
      exists "http", rest. repeat split; [auto | exact Hg | exact E].
  - intros (scheme & rest & Hs & Hg & ->). apply urlRegexp_host; assumption.
Qed.

(** X12. pullRegexp matches exactly the texts that end in [/pull/],
    digits, a slash and a run of word bytes, and it matches them there:
    the text before the match and group 1 are determined by the text. *)
Theorem pullRegexp_language (s before pull : string) :
  pullRegexp s = Some (before, pull)
  <-> exists n w,
        n <> "" /\ forallb_s isDigit n = true /\ forallb_s isWord w = true
        /\ pull = "/pull/" ++ n
        /\ s = before ++ "/pull/" ++ n ++ "/" ++ w.
Proof.
  split.
  - revert before. induction s as [|c s IH]; intros before.
    + cbn. discriminate.
    + cbn [pullRegexp].
      destruct (pullAt (String c s)) as [p|] eqn:Hat.
      * intros [= <- <-]. unfold pullAt in Hat.
        destruct (cut "/pull/" (String c s)) as [r|] eqn:Hc; [|discriminate].
        apply cut_Some in Hc.
        destruct (spanDigits r) as [ds r'] eqn:Hs.
        apply spanDigits_spec in Hs as [-> Hd].
        destruct (String.eqb_spec ds "") as [|Hne]; [discriminate|].
        destruct r' as [|c' w]; [discriminate|].
        destruct (isSlash c') eqn:Hsl; [|discriminate].
        destruct (forallb_s isWord w) eqn:Hw; [|discriminate].
        injection Hat as <-. apply Ascii.eqb_eq in Hsl. subst c'.
        exists ds, w. rewrite Hc. repeat split; auto.
      * destruct (pullRegexp s) as [[b p]|]; [|discriminate].
        intros [= <- <-]. destruct (IH b eq_refl) as (n & w & Hne & Hd & Hw & Hp & ->).
        exists n, w. repeat split; auto.
  - intros (n & w & Hne & Hd & Hw & -> & ->). apply pullRegexp_suffix; assumption.
Qed.

(** X10. Dropping the fragments twice is dropping them once: what
    fragmentRegexp leaves behind holds no further match. *)
Theorem stripFragment_idempotent (b : bool) (s : string) :
  stripFragment false (stripFragment b s) = stripFragment b s.
Proof.
  revert b. induction s as [|c r IH]; intros b; [destruct b; reflexivity|].
  assert (forall x, isNewline x = true -> Ascii.eqb x "#" = false) as Hnl
    by (intros x Hx; apply Ascii.eqb_eq in Hx; subst x; reflexivity).
  destruct b; cbn [stripFragment].
  - destruct (isNewline c) eqn:Hc; [|apply IH].
    cbn [stripFragment]. rewrite (Hnl _ Hc), (IH false).
    destruct (stripFragment false r); reflexivity.
  - destruct r as [|d r'].
    + cbn [stripFragment]. reflexivity.
    + destruct (Ascii.eqb c "#" && negb (isNewline d))%bool eqn:Ho; [apply IH|].
      specialize (IH false). cbn [stripFragment] in IH |- *.
      destruct (Ascii.eqb c "#") eqn:Hh.
      * cbn [andb] in Ho. apply negb_false_iff in Ho.
        rewrite (Hnl _ Ho) in IH |- *.
        destruct r' as [|e r'']; cbn [andb] in IH |- *.
        -- cbn [stripFragment] in *. rewrite Ho. cbn [negb andb].
           reflexivity.
        -- rewrite Ho. cbn [negb andb]. rewrite IH. reflexivity.
      * cbn [andb]. rewrite IH.
        destruct (match r' with
                  | String d0 _ => (Ascii.eqb d "#" && negb (isNewline d0))%bool
                  | EmptyString => false
                  end); [|reflexivity].
        destruct (stripFragment true r'); reflexivity.
Qed.

(** ** What [apply] keeps and what it changes *)

Lemma apply_cases (ctx : Context) (args : Args) :
  (apply ctx args = args /\ forall p, In p (Params args) -> urlMatch p = false)
  \/ (exists pre url post,
        Params args = (pre ++ url :: post)%list
        /\ (forall p, In p pre -> urlMatch p = false)
        /\ urlMatch url = true
        /\ apply ctx args
           = mkArgs (Command args) (pre ++ snd (patchOf ctx url) :: post)
               (beforeChain args
                ++ [["curl"; "-#LA"; "gh " ++ Version ctx; fst (patchOf ctx url);
                     "-o"; snd (patchOf ctx url)]])
               (Noop args)).
Proof.
  destruct (find urlMatch (Params args)) as [url|] eqn:Hf.
  - right. apply find_split in Hf as (pre & post & Hps & Hpre & Hurl).
    exists pre, url, post. repeat split; try assumption.
    destruct args as [cmd ps q noop]. cbn [Params Command beforeChain Noop] in *.
    subst ps. apply apply_first; assumption.
  - left. split.
    + unfold apply, transformApplyArgs. rewrite Hf. destruct (negb _); reflexivity.
    + intros p Hp. destruct (urlMatch p) eqn:E; [|reflexivity].
      pose proof (find_none _ _ Hf p Hp) as H. congruence.
Qed.

(** X7. [apply] edits in place: the subcommand and the dry-run flag stay,
    the number of parameters stays, and the queue of prerequisites is the
    old one, or the old one followed by one [curl] command whose output
    file is a parameter of the rewritten invocation. *)
Theorem apply_frame (ctx : Context) (args : Args) :
  Command (apply ctx args) = Command args
  /\ Noop (apply ctx args) = Noop args
  /\ length (Params (apply ctx args)) = length (Params args)
  /\ (beforeChain (apply ctx args) = beforeChain args
      \/ exists url file,
           beforeChain (apply ctx args)
           = (beforeChain args
              ++ [["curl"; "-#LA"; ("gh " ++ Version ctx)%string; url; "-o";
                   file]])%list
           /\ In file (Params (apply ctx args))).
Proof.
  destruct (apply_cases ctx args) as [[-> _] | (pre & url & post & Hps & _ & _ & ->)].
  - auto.
  - cbn [Command Noop Params beforeChain]. rewrite Hps, !length_app.
    repeat split. right. eexists. eexists. split; [reflexivity|].
    apply in_or_app. right. left. reflexivity.
Qed.

Lemma filter_nil_of (f : string -> bool) (l : list string) :
  (forall p, In p l -> f p = false) -> filter f l = [].
Proof.
  induction l as [|x l IH]; [reflexivity|]. intros H. cbn [filter].
  rewrite (H x) by (left; reflexivity). apply IH. intros p Hp. apply H. right. exact Hp.
Qed.

Lemma patchFile_no_url (ctx : Context) (url : string) :
  urlMatch (snd (patchOf ctx url)) = false.
Proof. unfold patchOf. cbn [snd]. apply Join_no_url. Qed.

(** X8. Each run of [apply] takes one URL out of the parameters: the
    number of parameters on the URL pattern goes down by one, from zero
    it stays zero. *)
Theorem apply_url_count (ctx : Context) (args : Args) :
  length (filter urlMatch (Params (apply ctx args)))
  = pred (length (filter urlMatch (Params args))).
Proof.
  destruct (apply_cases ctx args)
    as [[-> Hnone] | (pre & url & post & Hps & Hpre & Hurl & ->)].
  - rewrite (filter_nil_of _ _ Hnone). reflexivity.
  - cbn [Params]. rewrite Hps, !filter_app. cbn [filter].
    rewrite Hurl, patchFile_no_url, !length_app. cbn [length]. lia.
Qed.

(** ** Where the patch file goes *)

Lemma elements_nonempty (s : string) : Filepath.elements s <> [].
Proof.
  destruct s as [|c s]; [discriminate|]. cbn [Filepath.elements].
  destruct (isSlash c); [discriminate|].
  destruct (Filepath.elements s); discriminate.
Qed.

Lemma elements_app (a b : string) :
  Filepath.elements (a ++ "/" ++ b)
  = (Filepath.elements a ++ Filepath.elements b)%list.
Proof.
  induction a as [|c a IH]; [reflexivity|].
  change (String c a ++ "/" ++ b) with (String c (a ++ "/" ++ b)).
  cbn [Filepath.elements]. rewrite IH.
  destruct (isSlash c); [reflexivity|].
  pose proof (elements_nonempty a) as Hne.
  destruct (Filepath.elements a); [contradiction | reflexivity].
Qed.

Lemma elements_one (b : string) :
  existsb_s isSlash b = false -> Filepath.elements b = [b].
Proof.
  induction b as [|c b IH]; [reflexivity|]. cbn [existsb_s Filepath.elements].
  intros H. apply orb_false_iff in H as [Hc Hb]. rewrite Hc, (IH Hb). reflexivity.
Qed.

Lemma lastElem_no_slash (s : string) :
  existsb_s isSlash (Filepath.lastElem s) = false.
Proof.
  induction s as [|c s IH]; [reflexivity|]. cbn [Filepath.lastElem].
  destruct (existsb_s isSlash s) eqn:Hs; [exact IH|].
  destruct (isSlash c) eqn:Hc; [exact Hs|].
  cbn [existsb_s]. rewrite Hc, Hs. reflexivity.
Qed.

Lemma length_append (a b : string) :
  String.length (a ++ b) = (String.length a + String.length b)%nat.
Proof. induction a as [|c a IH]; simpl; [reflexivity | rewrite IH; reflexivity]. Qed.

Lemma cleanStep_kept (rooted : bool) (out : list string) (k : nat) (e : string) :
  Forall (fun x => keptElement x = true) out ->
  existsb_s isSlash e = false ->
  Forall (fun x => keptElement x = true)
         (fst (Filepath.cleanStep rooted (out, k) e)).
Proof.
  intros Hout He. unfold Filepath.cleanStep.
  destruct (e =? "")%string eqn:E0; [exact Hout|].
  destruct (e =? ".")%string eqn:E1; [exact Hout|].
  destruct (e =? "..")%string.
  - destruct (k <? length out)%nat.
    + destruct out; [constructor|]. inversion Hout; assumption.
    + destruct rooted; [exact Hout|]. constructor; [reflexivity | exact Hout].
  - constructor; [|exact Hout].
    unfold keptElement, plainElement. rewrite E0, E1, He. reflexivity.
Qed.

Lemma clean_fold_kept (rooted : bool) (es : list string) (st : list string * nat) :
  Forall (fun e => existsb_s isSlash e = false) es ->
  Forall (fun x => keptElement x = true) (fst st) ->
  Forall (fun x => keptElement x = true)
         (fst (fold_left (Filepath.cleanStep rooted) es st)).
Proof.
  revert st. induction es as [|e es IH]; intros [out k] Hes Hst; [exact Hst|].
  inversion Hes as [|? ? He Hes']; subst. cbn [fold_left].
  apply IH; [exact Hes'|].
  destruct (Filepath.cleanStep rooted (out, k) e) as [out' k'] eqn:E.
  pose proof (cleanStep_kept rooted out k e Hst He) as H.
  rewrite E in H. exact H.
Qed.

Lemma joinElements_snoc (l : list string) (x : string) :
  Filepath.joinElements (l ++ [x])
  = match l with
    | [] => x
    | _ => Filepath.joinElements l ++ "/" ++ x
    end.
Proof.
  induction l as [|e l IH]; [reflexivity|].
  destruct l as [|e2 l]; [reflexivity|].
  change ((e :: e2 :: l) ++ [x])%list with (e :: ((e2 :: l) ++ [x]))%list.
  change (Filepath.joinElements (e :: (e2 :: l) ++ [x]))
    with (e ++ "/" ++ Filepath.joinElements ((e2 :: l) ++ [x])).
  rewrite IH.
  change (Filepath.joinElements (e :: e2 :: l))
    with (e ++ "/" ++ Filepath.joinElements (e2 :: l)).
  rewrite !append_assoc. reflexivity.
Qed.

(** What Clean writes for a path with elements left is not the root and
    not the current directory. *)
Lemma joinElements_kept (es : list string) :
  Forall (fun x => keptElement x = true) es -> es <> [] ->
  exists c r,
    Filepath.joinElements es = String c r /\ isSlash c = false
    /\ Filepath.joinElements es <> ".".
Proof.
  intros Hes Hne. destruct es as [|e es]; [contradiction|].
  inversion Hes as [|? ? He _]; subst.
  unfold keptElement, plainElement in He.
  apply andb_true_iff in He as [He Hdot]. apply andb_true_iff in He as [He1 He2].
  apply negb_true_iff in He2, Hdot. apply String.eqb_neq in Hdot.
  destruct e as [|c r]; [discriminate He1|].
  cbn [existsb_s] in He2. apply orb_false_iff in He2 as [Hc _].
  exists c. destruct es as [|e2 es].
  - exists r. cbn [Filepath.joinElements]. auto.
  - eexists. cbn [Filepath.joinElements append]. repeat split; [exact Hc|].
    intros [= _ E]. destruct r; discriminate E.
Qed.

(** Joining a directory with a plain file name puts the file in the
    cleaned directory. *)
Lemma Join_plain (T name : string) :
  T <> "" -> existsb_s isSlash name = false -> (3 <= String.length name)%nat ->
  Filepath.Join [T; name] = inDir (Filepath.Clean T) name.
Proof.
  intros HT Hslash Hlen.
  assert ((name =? "")%string = false /\ (name =? ".")%string = false
          /\ (name =? "..")%string = false) as (N0 & N1 & N2).
  { repeat split; apply String.eqb_neq; intros ->; simpl in Hlen; lia. }
  cbn [Filepath.Join]. rewrite (eqb_false_of _ _ HT).
  cbn [Filepath.joinElements].
  destruct T as [|c T]; [contradiction|].
  change (String c T ++ "/" ++ name) with (String c (T ++ "/" ++ name)).
  unfold Filepath.Clean.
  change (String c (T ++ "/" ++ name)) with (String c T ++ "/" ++ name).
  rewrite elements_app, (elements_one _ Hslash), fold_left_app.
  pose proof (clean_fold_kept (isSlash c) (Filepath.elements (String c T))
                ([], 0%nat) (elements_plain _) ltac:(constructor)) as Hkept.
  destruct (fold_left (Filepath.cleanStep (isSlash c))
              (Filepath.elements (String c T)) ([], 0%nat)) as [out k].
  cbn [fst] in Hkept. cbn [fold_left].
  assert (Filepath.cleanStep (isSlash c) (out, k) name = (name :: out, k)) as ->
    by (unfold Filepath.cleanStep; rewrite N0, N1, N2; reflexivity).
  cbn [fst rev]. rewrite joinElements_snoc.
  apply Forall_rev in Hkept.
  destruct (isSlash c).
  - destruct (rev out) as [|e es] eqn:Hrev.
    + destruct out; [reflexivity|].
      apply (f_equal (@length string)) in Hrev. rewrite length_rev in Hrev.
      discriminate Hrev.
    + destruct (joinElements_kept (e :: es) Hkept ltac:(discriminate))
        as (c' & r & Hj & _ & _).
      rewrite Hj. unfold inDir.
      destruct out; [discriminate Hrev|]. reflexivity.
  - destruct out as [|o out].
    + reflexivity.
    + destruct (rev (o :: out)) as [|e es] eqn:Hrev.
      { apply (f_equal (@length string)) in Hrev. rewrite length_rev in Hrev.
        discriminate Hrev. }
      destruct (joinElements_kept (e :: es) Hkept ltac:(discriminate))
        as (c' & r & Hj & Hc' & Hdot).
      unfold inDir. rewrite (eqb_false_of _ _ Hdot). rewrite Hj.
      assert ((String c' r =? "/")%string = false) as ->.
      { apply String.eqb_neq. intros [= -> _]. discriminate Hc'. }
      reflexivity.
Qed.

Lemma Base_of_Ext_plain (u ext : string) :
  extension ext -> Filepath.Ext u = ext ->
  exists stem, Filepath.Base u = stem ++ ext /\ existsb_s isSlash stem = false.
Proof.
  intros Hext HE. unfold Filepath.Ext in HE.
  destruct (lastElem_suffix u) as [a Ha].
  destruct (fromLastDot_suffix (Filepath.lastElem u)) as [y Hy].
  rewrite HE in Hy. rewrite Hy in Ha.
  assert (u = (a ++ y) ++ ext) as -> by (rewrite append_assoc; exact Ha).
  rewrite (Base_app _ _ Hext). eexists. split; [reflexivity|].
  apply lastElem_no_slash.
Qed.

(** X13. Whatever the URL, the patch is written directly into the
    temporary directory: the file is the cleaned directory followed by one
    name without a separator, the base name of the fetched URL behind the
    [gist-] prefix of a gist. No URL makes the fetch write elsewhere. *)
Theorem patch_file_in_temp_dir (ctx : Context) (url : string) :
  TempDir ctx <> "" ->
  let prefix :=
    match urlRegexp url with
    | Some g => if (g =? "gist.")%string then "gist-" else ""
    | None => ""
    end in
  let name := prefix ++ Filepath.Base (fst (patchOf ctx url)) in
  existsb_s isSlash name = false
  /\ snd (patchOf ctx url) = inDir (Filepath.Clean (TempDir ctx)) name.
Proof.
  intros HT. cbv zeta. unfold patchOf. cbn [fst snd].
  set (gist := match urlRegexp url with
               | Some g => (g =? "gist.")%string
               | None => false
               end).
  assert (match urlRegexp url with
          | Some g => if (g =? "gist.")%string then "gist-" else ""
          | None => ""
          end = if gist then "gist-" else "") as ->
    by (unfold gist; destruct (urlRegexp url); reflexivity).
  set (u := if negb gist
            then match pullRegexp (stripFragment false url) with
                 | Some (before, pull) => before ++ pull
                 | None => stripFragment false url
                 end
            else stripFragment false url).
  set (ext := if gist then ".txt" else ".patch").
  assert (extension ext) as Hext
    by (unfold ext; destruct gist; [apply extension_txt | apply extension_patch]).
  destruct (ensure_ext u ext Hext) as [HE _]. cbv zeta in HE.
  destruct (Base_of_Ext_plain _ _ Hext HE) as (stem & HB & Hstem).
  rewrite HB.
  assert (existsb_s isSlash ((if gist then "gist-" else "") ++ stem ++ ext) = false)
    as Hplain.
  { rewrite !existsb_s_app, Hstem. unfold ext. destruct gist; reflexivity. }
  split; [exact Hplain|].
  apply Join_plain; [exact HT | exact Hplain|].
  rewrite !length_append. unfold ext. destruct gist; simpl; lia.
Qed.

Lemma patch_file_in_temp_dir_witness :
  existsb_s isSlash ("" ++ Filepath.Base "https://github.com/a/b/../../etc/passwd.patch")
  = false
  /\ snd (patchOf sample "https://github.com/a/b/../../etc/passwd")
     = inDir "/tmp" "passwd.patch".
Proof.
  apply (patch_file_in_temp_dir sample "https://github.com/a/b/../../etc/passwd").
  discriminate.
Defined.

(** ** The name of the patch file, in full *)

Lemma Clean_plain (name : string) :
  existsb_s isSlash name = false -> (3 <= String.length name)%nat ->
  Filepath.Clean name = name.
Proof.
  intros Hslash Hlen.
  assert ((name =? "")%string = false /\ (name =? ".")%string = false
          /\ (name =? "..")%string = false) as (N0 & N1 & N2).
  { repeat split; apply String.eqb_neq; intros ->; simpl in Hlen; lia. }
  unfold Filepath.Clean. rewrite (elements_one _ Hslash).
  destruct name as [|c r]; [discriminate N0|].
  cbn [fold_left].
  assert (isSlash c = false) as Hc
    by (cbn [existsb_s] in Hslash; apply orb_false_iff in Hslash; tauto).
  rewrite Hc.
  assert (Filepath.cleanStep false ([], 0%nat) (String c r) = ([String c r], 0%nat)) as ->
    by (unfold Filepath.cleanStep; rewrite N0, N1, N2; reflexivity).
  reflexivity.
Qed.

(** The base name of a file placed in a directory is the file's name. *)
Lemma Base_inDir (dir x ext : string) :
  extension ext -> existsb_s isSlash x = false ->
  Filepath.Base (inDir dir (x ++ ext)) = x ++ ext.
Proof.
  intros Hext Hx. unfold inDir.
  destruct (dir =? "/")%string; [|destruct (dir =? ".")%string].
  - replace ("/" ++ x ++ ext) with (("" ++ "/" ++ x) ++ ext) by reflexivity.
    rewrite (Base_app _ _ Hext), (lastElem_after_slash "" x Hx). reflexivity.
  - rewrite (Base_app _ _ Hext), (lastElem_plain _ Hx). reflexivity.
  - replace (dir ++ "/" ++ x ++ ext) with ((dir ++ "/" ++ x) ++ ext)
      by (rewrite !append_assoc; reflexivity).
    rewrite (Base_app _ _ Hext), (lastElem_after_slash dir x Hx). reflexivity.
Qed.

(** C9. For the first parameter on the URL pattern, the kind is read off
    the subdomain alone. A gist URL is fetched with the extension [.txt],
    appended unless the URL, its fragment dropped, has it already; a URL
    of the main host, its fragment dropped and a pull-request suffix cut
    back, is fetched with the extension [.patch]. The file is written in
    the temporary directory, and its name is the base name of the fetched
    URL, which ends in the extension, behind [gist-] for a gist and
    behind nothing otherwise. *)
Theorem apply_temp_name (ctx : Context) (cmd : string) (q : list Cmd)
    (noop : bool) (pre post : list string) (scheme sub rest : string) :
  (forall p, In p pre -> urlMatch p = false) ->
  scheme = "http" \/ scheme = "https" ->
  sub = "" \/ sub = "gist." ->
  let url := scheme ++ "://" ++ sub ++ "github.com/" ++ rest in
  let gist := (sub =? "gist.")%string in
  let ext := if gist then ".txt" else ".patch" in
  let prefix := if gist then "gist-" else "" in
  let u := if gist then stripFragment false url
           else collapsePull (stripFragment false url) in
  let fetched := if (Filepath.Ext u =? ext)%string then u else u ++ ext in
  let name := prefix ++ Filepath.Base fetched in
  let patchFile := Filepath.Join [TempDir ctx; name] in
  Filepath.Ext fetched = ext
  /\ (exists stem,
        Filepath.Base fetched = stem ++ ext /\ existsb_s isSlash stem = false)
  /\ Filepath.Base patchFile = name
  /\ (TempDir ctx <> "" -> patchFile = inDir (Filepath.Clean (TempDir ctx)) name)
  /\ apply ctx (mkArgs cmd (pre ++ url :: post) q noop)
     = mkArgs cmd (pre ++ patchFile :: post)
         (q ++ [["curl"; "-#LA"; "gh " ++ Version ctx; fetched; "-o"; patchFile]])
         noop.
Proof.
  intros Hpre Hscheme Hsub. cbv zeta.
  set (url := scheme ++ "://" ++ sub ++ "github.com/" ++ rest).
  set (gist := (sub =? "gist.")%string).
  set (ext := if gist then ".txt" else ".patch").
  set (prefix := if gist then "gist-" else "").
  set (u := if gist then stripFragment false url
            else collapsePull (stripFragment false url)).
  set (fetched := if (Filepath.Ext u =? ext)%string then u else u ++ ext).
  pose proof (urlRegexp_host scheme sub rest Hscheme Hsub) as Hu. fold url in Hu.
  assert (urlMatch url = true) as Hm by (unfold urlMatch; rewrite Hu; reflexivity).
  assert (extension ext) as Hext
    by (unfold ext; destruct gist; [apply extension_txt | apply extension_patch]).
  destruct (ensure_ext u ext Hext) as [HE _]. cbv zeta in HE. fold fetched in HE.
  destruct (Base_of_Ext_plain _ _ Hext HE) as (stem & HB & Hstem).
  assert (existsb_s isSlash (prefix ++ stem) = false) as Hx
    by (rewrite existsb_s_app, Hstem; unfold prefix; destruct gist; reflexivity).
  assert (prefix ++ Filepath.Base fetched = (prefix ++ stem) ++ ext) as Hname
    by (rewrite HB, append_assoc; reflexivity).
  assert (existsb_s isSlash ((prefix ++ stem) ++ ext) = false) as Hplain.
  { rewrite existsb_s_app, Hx. unfold ext. destruct gist; reflexivity. }
  assert (3 <= String.length ((prefix ++ stem) ++ ext))%nat as Hlen
    by (rewrite length_append; unfold ext; destruct gist; simpl; lia).
  assert (patchOf ctx url
          = (fetched, Filepath.Join [TempDir ctx; prefix ++ Filepath.Base fetched]))
    as Hpatch.
  { unfold patchOf. rewrite Hu. fold gist. unfold fetched, u, ext, prefix, collapsePull.
    destruct gist; reflexivity. }
  split; [exact HE|]. split; [exists stem; auto|].
  assert (TempDir ctx <> "" ->
          Filepath.Join [TempDir ctx; prefix ++ Filepath.Base fetched]
          = inDir (Filepath.Clean (TempDir ctx)) (prefix ++ Filepath.Base fetched))
    as Hin.
  { intros HT. rewrite Hname. apply Join_plain; assumption. }
  split; [|split; [exact Hin|]].
  - destruct (String.eqb_spec (TempDir ctx) "") as [E|E].
    + rewrite E, Hname. cbn [Filepath.Join].
      change ("" =? "")%string with true. cbv iota.
      assert (((prefix ++ stem) ++ ext =? "")%string = false) as ->
        by (apply String.eqb_neq; intros E'; rewrite E' in Hlen; simpl in Hlen; lia).
      cbn [Filepath.joinElements]. rewrite (Clean_plain _ Hplain Hlen).
      rewrite (Base_app _ _ Hext), (lastElem_plain _ Hx). reflexivity.
    + rewrite (Hin E), Hname. apply Base_inDir; assumption.
  - rewrite (apply_first ctx cmd q noop pre post url Hpre Hm), Hpatch. reflexivity.
Qed.

Lemma apply_temp_name_witness :
  Filepath.Ext "https://gist.github.com/8da7fb575debd88c54cf.txt" = ".txt"
  /\ (exists stem,
        "8da7fb575debd88c54cf.txt" = stem ++ ".txt" /\ existsb_s isSlash stem = false)
  /\ Filepath.Base "/tmp/gist-8da7fb575debd88c54cf.txt" = "gist-8da7fb575debd88c54cf.txt"
  /\ ("/tmp" <> "" ->
      "/tmp/gist-8da7fb575debd88c54cf.txt"
      = inDir "/tmp" "gist-8da7fb575debd88c54cf.txt")
  /\ apply sample
       (cmdline "apply"
          ["--check"; "https://gist.github.com/8da7fb575debd88c54cf#file-fix-diff"])
     = mkArgs "apply" ["--check"; "/tmp/gist-8da7fb575debd88c54cf.txt"]
         [["curl"; "-#LA"; "gh 2.2.0";
           "https://gist.github.com/8da7fb575debd88c54cf.txt"; "-o";
           "/tmp/gist-8da7fb575debd88c54cf.txt"]]
         false.
Proof.
  apply (apply_temp_name sample "apply" [] false ["--check"] []
           "https" "gist." "8da7fb575debd88c54cf#file-fix-diff").
  - intros p [<- | []]. reflexivity.
  - right; reflexivity.
  - right; reflexivity.
Defined.

Example apply_main_host_name :
  apply sample
    (cmdline "apply" ["https://github.com/jingweno/gh/pull/55/commits#r1"; "-3"])
  = mkArgs "apply" ["/tmp/55.patch"; "-3"]
      [["curl"; "-#LA"; "gh 2.2.0"; "https://github.com/jingweno/gh/pull/55.patch";
        "-o"; "/tmp/55.patch"]]
      false.
Proof. reflexivity. Qed.

(** ** What [remote] keeps *)

Lemma sameButParams_refl (a : Args) : sameButParams a a.
Proof. repeat split. Qed.

Lemma sameButParams_trans (a b c : Args) :
  sameButParams a b -> sameButParams b c -> sameButParams a c.
Proof. unfold sameButParams. intros (-> & -> & ->) (-> & -> & ->). auto. Qed.

Lemma framed_ret {A : Type} (x : A) : framed (ret x).
Proof. intros a. apply sameButParams_refl. Qed.

Lemma framed_ask {A : Type} (f : Args -> A) : framed (ask f).
Proof. intros a. apply sameButParams_refl. Qed.

Lemma framed_Check {A : Type} (r : result A) : framed (Check r).
Proof. intros a. unfold Check. destruct r; apply sameButParams_refl. Qed.

Lemma framed_update (f : Args -> Args) :
  (forall a, sameButParams a (f a)) -> framed (update f).
Proof. intros Hf a. apply Hf. Qed.

Lemma framed_bind {A B : Type} (m : M A) (k : A -> M B) :
  framed m -> (forall x, framed (k x)) -> framed (bind m k).
Proof.
  intros Hm Hk a. unfold bind. specialize (Hm a).
  destruct (m a) as [x a1|e a1]; cbn [stateOf] in *; [|exact Hm].
  apply (sameButParams_trans _ a1); [exact Hm | apply Hk].
Qed.

Lemma setParams_frame (a : Args) (ps : list string) : sameButParams a (setParams a ps).
Proof. repeat split. Qed.

Lemma ReplaceParam_frame (i : Z) (v : string) (a : Args) :
  sameButParams a (ReplaceParam a i v).
Proof.
  unfold ReplaceParam. destruct (inBounds _ _);
    [apply setParams_frame | apply sameButParams_refl].
Qed.

Lemma RemoveParam_frame (i : Z) (a : Args) : sameButParams a (RemoveParam a i).
Proof.
  unfold RemoveParam. destruct (inBounds _ _);
    [apply setParams_frame | apply sameButParams_refl].
Qed.

Ltac frame :=
  repeat match goal with
  | |- framed (bind _ _) => apply framed_bind; [|intro]
  | |- framed (ret _) => apply framed_ret
  | |- framed (ask _) => apply framed_ask
  | |- framed (Check _) => apply framed_Check
  | |- framed (update _) => apply framed_update; intro
  | |- sameButParams ?a (ReplaceParam ?a _ _) => apply ReplaceParam_frame
  | |- sameButParams ?a (RemoveParam ?a _) => apply RemoveParam_frame
  | |- sameButParams ?a (AppendParams ?a _) => apply setParams_frame
  | |- framed (if ?b then _ else _) => destruct b
  | |- framed (match ?x with _ => _ end) => destruct x
  end.

Lemma parseRemotePrivateFlag_framed : framed parseRemotePrivateFlag.
Proof. unfold parseRemotePrivateFlag. frame. Qed.

Lemma remoteTarget_framed (ctx : Context) : framed (remoteTarget ctx).
Proof.
  unfold remoteTarget. frame; apply parseRemotePrivateFlag_framed.
Qed.

(** X3. [remote] touches the parameters only: however it ends, returning
    or stopping on an error, the subcommand, the dry-run flag and the
    queue of prerequisite commands are those it was given. It never
    enqueues a command. *)
Theorem remote_frame (ctx : Context) (args : Args) :
  sameButParams args (stateOf (remote ctx args)).
Proof.
  unfold remote. destruct (_ && _)%bool; [|apply sameButParams_refl].
  revert args. change (framed (transformRemoteArgs ctx)).
  unfold transformRemoteArgs. frame. apply remoteTarget_framed.
Qed.

(** ** The sub-key and the remote name *)

Lemma removeFirst_snoc (v x : string) (l : list string) :
  x <> v -> removeFirst v (l ++ [x]) = (removeFirst v l ++ [x])%list.
Proof.
  intros Hx. induction l as [|p l IH].
  - cbn. rewrite (eqb_false_of _ _ Hx). reflexivity.
  - cbn [app removeFirst]. destruct (p =? v)%string; [reflexivity|].
    rewrite IH. reflexivity.
Qed.

Lemma remote_Ok_cases (ctx : Context) (args args' : Args) :
  remote ctx args = Ok tt args' ->
  args' = args
  \/ (Params args <> []
      /\ (FirstParam args = "add" \/ FirstParam args = "set-url")
      /\ exists o n url,
           parseRepoNameOwner (LastParam args) = (o, n) /\ o <> ""
           /\ args' = setParams args (remoteParams args o ++ [url])).
Proof.
  intros H. unfold remote in H.
  destruct (negb (IsParamsEmpty args)) eqn:Hne;
    [|cbn in H; injection H as <-; left; reflexivity].
  destruct ((FirstParam args =? "add") || (FirstParam args =? "set-url"))%string%bool
    eqn:Hkey; [|cbn in H; injection H as <-; left; reflexivity].
  cbn [andb] in H. unfold transformRemoteArgs, bind in H.
  destruct (remoteTarget ctx args) as [[t|] a1 | e a1] eqn:Ht; [| |discriminate H].
  - right.
    destruct (remoteTarget_Some _ _ _ _ Ht) as (o & n & R & h & hc & Hp & Ho & Hres & Hcfg).
    pose proof (remoteTarget_run ctx args o n R h hc Hp Ho Hres Hcfg) as Hrun.
    cbv zeta in Hrun. rewrite Hrun in Ht. injection Ht as <- <-.
    unfold update in H. injection H as <-.
    split; [|split].
    + unfold IsParamsEmpty in Hne. destruct (Params args); [discriminate | discriminate].
    + apply orb_true_iff in Hkey as [E | E]; apply String.eqb_eq in E; auto.
    + exists o, n. eexists. repeat split; [exact Hp | exact Ho].
  - left. apply remoteTarget_None in Ht as [-> _].
    unfold ret in H. injection H as <-. reflexivity.
Qed.

(** X4. A [remote] invocation with a parameter after the sub-key keeps
    the sub-key: whatever the rule rewrites, the first parameter of the
    result is [add] or [set-url] as given. *)
Theorem remote_keeps_subkey (ctx : Context) (args args' : Args) :
  remote ctx args = Ok tt args' ->
  (2 <= length (Params args))%nat ->
  FirstParam args' = FirstParam args.
Proof.
  intros H Hlen.
  destruct (remote_Ok_cases _ _ _ H)
    as [-> | (_ & Hkey & o & n & url & Hp & Ho & ->)]; [reflexivity|].
  unfold FirstParam in *. cbn [Params setParams].
  destruct (Params args) as [|key rest] eqn:Hps; [simpl in Hlen; lia|].
  destruct rest as [|r0 rest0]; [simpl in Hlen; lia|].
  cbn [hd] in *.
  assert (r0 :: rest0 <> []) as Hrne by discriminate.
  remember (r0 :: rest0) as rest eqn:Hrest. clear Hrest.
  assert (Strings.HasPrefix key "-" = false /\ (key =? "-p")%string = false
          /\ parseRepoNameOwner key = (key, "")) as (Hkf & Hkp & Hkparse)
    by (destruct Hkey as [-> | ->]; repeat split).
  assert (LastParam args = last rest "") as Hlast
    by (unfold LastParam; rewrite Hps; destruct rest; [contradiction | reflexivity]).
  pose proof (parsed_not_flag _ _ _ Hp Ho) as Hnf.
  assert (last rest "" <> "-p") as Hlp
    by (rewrite <- Hlast; apply not_flag_neq, Hnf).
  assert (removeFirst "-p" rest <> []) as Hrest1.
  { intros E. pose proof (last_removeFirst "-p" rest "" Hlp) as Hl.
    rewrite E in Hl. cbn [last] in Hl. rewrite <- Hlast in Hl. rewrite <- Hl in Hp.
    cbn in Hp. injection Hp as <- _. contradiction. }
  unfold remoteParams. rewrite Hps. cbn [removeFirst]. rewrite Hkp.
  destruct (originCase args); [reflexivity|].
  destruct (length (Words args) =? 2)%nat eqn:E2.
  - cbn [replaceFirst].
    destruct (String.eqb_spec key (nth 1 (Words args) "")) as [Ew|_]; [|reflexivity].
    (* the second token is the sub-key again: it is the trailing parameter *)
    assert (Words args = key :: filter (fun p => negb (Strings.HasPrefix p "-")) rest)
      as Hw by (unfold Words; rewrite Hps; cbn [filter]; rewrite Hkf; reflexivity).
    assert (last (filter (fun p => negb (Strings.HasPrefix p "-")) rest) ""
            = last rest "") as Hlf.
    { apply last_filter; [exact Hrne|]. rewrite <- Hlast, Hnf. reflexivity. }
    rewrite Hw in E2, Ew. cbn [length] in E2.
    destruct (filter (fun p => negb (Strings.HasPrefix p "-")) rest) as [|w [|w2 ws]];
      try discriminate E2.
    cbn in Ew, Hlf. subst w. rewrite <- Hlast in Hlf. rewrite <- Hlf in Hp.
    rewrite Hkparse in Hp. injection Hp as <- _. reflexivity.
  - destruct (removeFirst "-p" rest) as [|x xs]; [contradiction|]. reflexivity.
Qed.

Lemma remote_keeps_subkey_witness :
  FirstParam (cmdline "remote" ["set-url"; "origin"; "git@github.com:jingweno/gh.git"])
  = FirstParam (cmdline "remote" ["set-url"; "-p"; "origin"; "JingWeno"]).
Proof.
  apply (remote_keeps_subkey sample); [reflexivity | simpl; lia].
Defined.

(** X5. The sub-key alone is taken for an owner: [remote add] and
    [remote set-url] without a further parameter come back as the single
    parameter that is the URL of the repository of the owner [add] or
    [set-url], the sub-key gone. *)
Theorem remote_lone_subkey (ctx : Context) (cmd key : string) (q : list Cmd)
    (noop : bool) (R h : string) (hc : HostConfig) :
  key = "add" \/ key = "set-url" ->
  currentRepo ctx = Some (R, h) ->
  DefaultHost ctx = ok hc ->
  let same := (ToLower ctx key =? ToLower ctx (User hc))%string in
  let owner := if same then User hc else key in
  let project := NewProject ctx owner R h in
  remote ctx (mkArgs cmd [key] q noop)
  = Ok tt (mkArgs cmd
             [GitURL ctx project R owner
                (same || negb (Host project =? GitHubHost ctx)%string)]
             q noop).
Proof.
  intros Hkey Hrepo Hcfg. cbv zeta.
  set (args := mkArgs cmd [key] q noop).
  assert (parseRepoNameOwner (LastParam args) = (key, "") /\ key <> ""
          /\ originCase args = false /\ remoteParams args key = []
          /\ hasFlag "-p" (Params args) = false) as (Hp & Hne & Hoc & Hps & Hf)
    by (destruct Hkey as [-> | ->]; repeat split; discriminate).
  pose proof (remoteTarget_run ctx args key "" R h hc Hp Hne Hrepo Hcfg) as Hrun.
  cbv zeta in Hrun. rewrite Hoc, Hps, Hf in Hrun.
  rewrite remote_enters by (try discriminate; exact Hkey).
  unfold transformRemoteArgs, bind. rewrite Hrun. reflexivity.
Qed.

Lemma remote_lone_subkey_witness :
  remote sample (cmdline "remote" ["add"])
  = Ok tt (cmdline "remote" ["git://github.com/add/gh.git"]).
Proof.
  apply (remote_lone_subkey sample "remote" "add" [] false "gh" "github.com"
           (mkHost "jingweno")); reflexivity || (left; reflexivity).
Defined.

(** X6. With a remote name before the trailing token, as in
    [remote set-url NAME OWNER/REPO] (three non-flag tokens or more), the
    trailing token gives way to the URL built from its owner and name,
    and every other parameter stays in place, one [-p] apart. *)
Theorem remote_named (ctx : Context) (cmd : string) (q : list Cmd) (noop : bool)
    (pre : list string) (tok o n R h : string) (hc : HostConfig) :
  hd "" pre = "add" \/ hd "" pre = "set-url" ->
  (2 <= length (filter (fun p => negb (Strings.HasPrefix p "-")) pre))%nat ->
  parseRepoNameOwner tok = (o, n) -> o <> "" ->
  resolves ctx n R h ->
  DefaultHost ctx = ok hc ->
  let name := if (n =? "")%string then R else n in
  let same := (ToLower ctx o =? ToLower ctx (User hc))%string in
  let owner := if same then User hc else o in
  let project := NewProject ctx owner name h in
  remote ctx (mkArgs cmd (pre ++ [tok]) q noop)
  = Ok tt (mkArgs cmd
             (removeFirst "-p" pre
              ++ [GitURL ctx project name owner
                    (hasFlag "-p" pre || same
                     || negb (Host project =? GitHubHost ctx)%string)])
             q noop).
Proof.
  intros Hkey Hwords Hp Ho Hres Hcfg. cbv zeta.
  set (args := mkArgs cmd (pre ++ [tok]) q noop).
  assert (pre <> []) as Hpre by (intros ->; simpl in Hwords; lia).
  assert (LastParam args = tok) as Hlast
    by (unfold LastParam, args; cbn [Params]; apply last_last).
  pose proof (parsed_not_flag _ _ _ Hp Ho) as Hnf.
  assert (tok <> "-p") as Hnp by (apply not_flag_neq, Hnf).
  assert (length (Words args) = S (length (filter (fun p => negb (Strings.HasPrefix p "-")) pre)))
    as Hw.
  { unfold Words, args. cbn [Params]. rewrite filter_app, length_app.
    cbn [filter]. rewrite Hnf. cbn. lia. }
  assert ((length (Words args) =? 2)%nat = false) as E2
    by (apply Nat.eqb_neq; lia).
  assert (originCase args = false) as Hoc
    by (unfold originCase; rewrite E2; reflexivity).
  assert (remoteParams args o = removeFirst "-p" pre) as Hps.
  { unfold remoteParams. rewrite Hoc, E2. unfold args. cbn [Params].
    rewrite (removeFirst_snoc _ _ _ Hnp). apply removelast_last. }
  assert (hasFlag "-p" (Params args) = hasFlag "-p" pre) as Hf.
  { unfold hasFlag, args. cbn [Params]. rewrite existsb_app. cbn [existsb].
    rewrite (eqb_false_of "-p" tok) by congruence.
    rewrite !orb_false_r. reflexivity. }
  rewrite <- Hlast in Hp.
  pose proof (remoteTarget_run ctx args o n R h hc Hp Ho Hres Hcfg) as Hrun.
  cbv zeta in Hrun. rewrite Hoc, Hps, Hf in Hrun.
  rewrite remote_enters.
  - unfold transformRemoteArgs, bind. rewrite Hrun. reflexivity.
  - unfold args. cbn [Params]. destruct pre; discriminate.
  - unfold FirstParam, args. cbn [Params]. destruct pre; [contradiction|]. exact Hkey.
Qed.

Lemma remote_named_witness :
  remote sample (cmdline "remote" ["set-url"; "-p"; "mm"; "mislav/dotfilez.js"])
  = Ok tt (cmdline "remote" ["set-url"; "mm"; "git@github.com:mislav/dotfilez.js.git"]).
Proof.
  apply (remote_named sample "remote" [] false ["set-url"; "-p"; "mm"]
           "mislav/dotfilez.js" "mislav" "dotfilez.js" "" "" (mkHost "jingweno")).
  - right; reflexivity.
  - simpl; lia.
  - reflexivity.
  - discriminate.
  - unfold resolves. simpl. eauto.
  - reflexivity.
Defined.

(** ** The listing of issues *)

Example issueLine_small :
  issueLine (mkIssue 42 "Fix apply" "https://github.com/jingweno/gh/issues/42" "")
  = "     42] Fix apply ( https://github.com/jingweno/gh/issues/42 )" ++ newline.
Proof. reflexivity. Qed.

Example issueLine_million :
  issueLine (mkIssue 1000000 "t" "u" "p") = " 1000000] t ( p )" ++ newline.
Proof. reflexivity. Qed.

Example issue_dry_run :
  issue true "jingweno/gh" (failed "not reached")
  = ok ("Would request list of issues for jingweno/gh" ++ newline).
Proof. reflexivity. Qed.

Example issue_listing :
  issue false "jingweno/gh"
    (ok [mkIssue 7 "Crash" "https://github.com/jingweno/gh/issues/7" "";
         mkIssue 12 "Fix" "https://github.com/jingweno/gh/issues/12"
           "https://github.com/jingweno/gh/pull/12"])
  = ok ("      7] Crash ( https://github.com/jingweno/gh/issues/7 )" ++ newline
        ++ "     12] Fix ( https://github.com/jingweno/gh/pull/12 )" ++ newline).
Proof. reflexivity. Qed.

Lemma length_spaces (k : nat) : String.length (spaces k) = k.
Proof. induction k; simpl; congruence. Qed.

Lemma length_padLeft (w : nat) (s : string) :
  String.length (padLeft w s) = Nat.max w (String.length s).
Proof. unfold padLeft. rewrite length_append, length_spaces. lia. Qed.

Lemma decimalFuel_upper (f : nat) (n : Z) (k : nat) :
  0 <= n < 10 ^ Z.of_nat k -> (1 <= k)%nat ->
  (String.length (decimalFuel f n) <= k)%nat.
Proof.
  revert n k. induction f as [|f IH]; intros n k Hn Hk; [simpl; lia|].
  cbn [decimalFuel]. destruct (n <? 10) eqn:E; [simpl; lia|].
  apply Z.ltb_ge in E. rewrite length_append. simpl String.length.
  destruct k as [|[|k]]; [lia | simpl in Hn; lia |].
  assert (String.length (decimalFuel f (n / 10)) <= S k)%nat; [|lia].
  apply IH; [|lia]. split; [apply Z.div_pos; lia|].
  apply Z.div_lt_upper_bound; [lia|].
  replace (Z.of_nat (S (S k))) with (Z.succ (Z.of_nat (S k))) in Hn by lia.
  rewrite Z.pow_succ_r in Hn by lia. lia.
Qed.

Lemma decimalFuel_lower (f : nat) (n : Z) (k : nat) :
  0 <= n < 10 ^ Z.of_nat f -> 10 ^ Z.of_nat k <= n ->
  (k + 1 <= String.length (decimalFuel f n))%nat.
Proof.
  revert n k. induction f as [|f IH]; intros n k Hn Hk.
  - simpl in Hn. assert (0 < 10 ^ Z.of_nat k) by (apply Z.pow_pos_nonneg; lia). lia.
  - cbn [decimalFuel]. destruct (n <? 10) eqn:E.
    + apply Z.ltb_lt in E. destruct k as [|k]; [simpl; lia|].
      replace (Z.of_nat (S k)) with (Z.succ (Z.of_nat k)) in Hk by lia.
      rewrite Z.pow_succ_r in Hk by lia.
      assert (0 < 10 ^ Z.of_nat k) by (apply Z.pow_pos_nonneg; lia). lia.
    + apply Z.ltb_ge in E. rewrite length_append. simpl String.length.
      destruct k as [|k]; [lia|].
      assert (k + 1 <= String.length (decimalFuel f (n / 10)))%nat; [|lia].
      apply IH.
      * split; [apply Z.div_pos; lia|]. apply Z.div_lt_upper_bound; [lia|].
        replace (Z.of_nat (S f)) with (Z.succ (Z.of_nat f)) in Hn by lia.
        rewrite Z.pow_succ_r in Hn by lia. lia.
      * apply Z.div_le_lower_bound; [lia|].
        replace (Z.of_nat (S k)) with (Z.succ (Z.of_nat k)) in Hk by lia.
        rewrite Z.pow_succ_r in Hk by lia. lia.
Qed.

(** The fuel of [decimal] is enough. *)
Lemma decimal_fuel (n : Z) :
  0 <= n -> n < 10 ^ Z.of_nat (S (Z.to_nat (Z.log2 n))).
Proof.
  intros Hn. rewrite Nat2Z.inj_succ, Z2Nat.id by apply Z.log2_nonneg.
  destruct (Z.eq_dec n 0) as [->|Hz]; [reflexivity|].
  apply Z.lt_le_trans with (2 ^ Z.succ (Z.log2 n)).
  - apply Z.log2_spec. lia.
  - apply Z.pow_le_mono_l. lia.
Qed.

(** X14. The number column of the listing is seven bytes wide for every
    issue number below one million, and for no number from one million
    on: up to there the closing brackets of the lines stand in one
    column. *)
Theorem issue_number_column (issue : Issue) :
  0 <= Number issue ->
  exists column,
    issueLine issue
    = column ++ "] " ++ Title issue ++ " ( " ++ issueURL issue ++ " )" ++ newline
    /\ (String.length column = 7%nat <-> Number issue < 1000000).
Proof.
  intros Hn. exists (fmtSpaceD 7 (Number issue)). split; [reflexivity|].
  unfold fmtSpaceD. rewrite length_padLeft, length_append.
  assert ((Number issue <? 0) = false) as -> by (apply Z.ltb_ge; lia).
  rewrite Z.abs_eq by lia. simpl (String.length " ").
  unfold decimal. pose proof (decimal_fuel _ Hn) as Hfuel.
  set (f := S (Z.to_nat (Z.log2 (Number issue)))) in *.
  split.
  - intros Hlen. destruct (Z.lt_ge_cases (Number issue) 1000000) as [|Hge]; [assumption|].
    pose proof (decimalFuel_lower f (Number issue) 6 (conj Hn Hfuel) Hge). lia.
  - intros Hlt.
    pose proof (decimalFuel_upper f (Number issue) 6 (conj Hn Hlt) ltac:(lia)). lia.
Qed.

Lemma issue_number_column_witness :
  exists column,
    issueLine (mkIssue 999999 "t" "u" "")
    = column ++ "] " ++ "t" ++ " ( " ++ "u" ++ " )" ++ newline
    /\ (String.length column = 7%nat <-> 999999 < 1000000).
Proof.
  apply (issue_number_column (mkIssue 999999 "t" "u" "")). simpl. lia.
Defined.

(** ** Package [git] *)

Example sample_Config : Git.Config sampleGit "user.name" = Val "Jingwen Owen Ou".
Proof. reflexivity. Qed.

Example sample_Config_blank :
  Git.Config sampleGit "hub.blank" = Panic "index out of range".
Proof. reflexivity. Qed.

Example sample_Config_missing :
  Git.Config sampleGit "user.email" = Err "Unknown config user.email".
Proof. reflexivity. Qed.

Example sample_BoolConfig : Git.BoolConfig sampleGit "hub.retries" = Val true.
Proof. reflexivity. Qed.

Example sample_AuthorSignature :
  Git.AuthorSignature sampleGit
  = Val "Signed-off-by: Jingwen Owen Ou <jingweno@gmail.com>".
Proof. reflexivity. Qed.

(** A value that gitGetConfig returns is a trimmed line of the output,
    and not empty. *)
Lemma gitGetConfig_Val (env : Git.Env) (args : list string) (v : string) :
  Git.gitGetConfig env args = Val v ->
  v <> ""
  /\ snd (Git.CombinedOutput env (Git.GlobalFlags env ++ "config" :: args)) = None
  /\ exists line,
       In line (splitOn "010"
                  (fst (Git.CombinedOutput env (Git.GlobalFlags env ++ "config" :: args))))
       /\ v = Git.TrimSpace env line.
Proof.
  unfold Git.gitGetConfig, Git.gitOutput, Git.gitConfigCommand.
  destruct (Git.CombinedOutput env (Git.GlobalFlags env ++ "config" :: args))
    as [out err].
  destruct err as [e|]; [destruct args; discriminate|].
  destruct (filter _ _) as [|v0 vs] eqn:Hf; [discriminate|].
  intros [= ->].
  assert (In v (filter (fun line => negb (line =? "")%string)
                  (map (Git.TrimSpace env) (splitOn "010" out)))) as Hin
    by (rewrite Hf; left; reflexivity).
  apply filter_In in Hin as [Hin Hne].
  apply negb_true_iff, String.eqb_neq in Hne.
  apply in_map_iff in Hin as (line & <- & Hline).
  cbn [fst snd]. split; [exact Hne|]. split; [reflexivity|].
  exists line. auto.
Qed.

(** X15. gitGetConfig ends in one of three ways. It returns a value
    only when git succeeded, and the value is then a trimmed line of the
    output and never empty. It returns the error [Unknown config] with
    the last argument when git failed. And it panics when git succeeded
    with nothing but blank lines, as for a key set to the empty value
    (or when called on no argument and git failed). *)
Theorem gitGetConfig_outcome (env : Git.Env) (args : list string) :
  let out := fst (Git.CombinedOutput env (Git.GlobalFlags env ++ "config" :: args)) in
  let err := snd (Git.CombinedOutput env (Git.GlobalFlags env ++ "config" :: args)) in
  match Git.gitGetConfig env args with
  | Val v =>
      err = None /\ v <> ""
      /\ exists line, In line (splitOn "010" out) /\ v = Git.TrimSpace env line
  | Err e => err <> None /\ args <> [] /\ e = "Unknown config " ++ last args ""
  | Panic _ =>
      (err <> None /\ args = [])
      \/ (err = None
          /\ forall line, In line (splitOn "010" out) -> Git.TrimSpace env line = "")
  end.
Proof.
  cbv zeta.
  destruct (Git.gitGetConfig env args) as [v|e|m] eqn:H.
  - destruct (gitGetConfig_Val env args v H) as (Hne & Herr & Hline). auto.
  - unfold Git.gitGetConfig, Git.gitOutput, Git.gitConfigCommand in H.
    destruct (Git.CombinedOutput env (Git.GlobalFlags env ++ "config" :: args))
      as [out err].
    cbn [fst snd]. destruct err as [e0|].
    + destruct args as [|a args]; [discriminate H|].
      injection H as <-. repeat split; discriminate.
    + destruct (filter _ _); discriminate H.
  - unfold Git.gitGetConfig, Git.gitOutput, Git.gitConfigCommand in H.
    destruct (Git.CombinedOutput env (Git.GlobalFlags env ++ "config" :: args))
      as [out err].
    cbn [fst snd]. destruct err as [e0|].
    + destruct args as [|a args]; [|discriminate H]. left. split; [discriminate | reflexivity].
    + right. split; [reflexivity|].
      destruct (filter _ _) as [|v0 vs] eqn:Hf; [|discriminate H].
      intros line Hline.
      pose proof (filter_none _ _ Hf (Git.TrimSpace env line)
                    (in_map _ _ _ Hline)) as Hb.
      apply negb_false_iff, String.eqb_eq in Hb. exact Hb.
Qed.

Lemma first_kept (f : string -> bool) (g : string -> string)
    (l : list string) (v : string) (vs : list string) :
  filter f (map g l) = v :: vs ->
  exists before x after,
    l = (before ++ x :: after)%list
    /\ (forall p, In p before -> f (g p) = false)
    /\ g x = v.
Proof.
  induction l as [|p l IH]; [discriminate|].
  cbn [map filter]. destruct (f (g p)) eqn:Hp.
  - intros [= <- _]. exists [], p, l. repeat split. intros q [].
  - intros H. destruct (IH H) as (before & x & after & -> & Hb & Hx).
    exists (p :: before), x, after. repeat split; [|exact Hx].
    intros q [<- | Hq]; [exact Hp | apply Hb, Hq].
Qed.

(** X18. CommentChar never returns an error. When git fails on
    [config core.commentchar] it returns [#]. When git succeeds it
    returns the first line of the output that is not blank, trimmed, and
    so never the empty string; and it panics when every line is
    blank. *)
Theorem CommentChar_outcome (env : Git.Env) :
  let run := Git.CombinedOutput env
               (Git.GlobalFlags env ++ ["config"; "core.commentchar"]) in
  match Git.CommentChar env with
  | Val char =>
      char <> ""
      /\ ((snd run <> None /\ char = "#")
          \/ (snd run = None
              /\ exists before line after,
                   splitOn "010" (fst run) = (before ++ line :: after)%list
                   /\ (forall l, In l before -> Git.TrimSpace env l = "")
                   /\ char = Git.TrimSpace env line))
  | Err _ => False
  | Panic _ =>
      snd run = None
      /\ forall line, In line (splitOn "010" (fst run)) -> Git.TrimSpace env line = ""
  end.
Proof.
  cbv zeta.
  unfold Git.CommentChar, Git.Config, Git.gitGetConfig, Git.gitOutput,
    Git.gitConfigCommand.
  destruct (Git.CombinedOutput env
              (Git.GlobalFlags env ++ ["config"; "core.commentchar"])) as [out err].
  cbn [fst snd]. destruct err as [e|].
  - split; [discriminate|]. left. split; [discriminate | reflexivity].
  - destruct (filter _ _) as [|v vs] eqn:Hf.
    + split; [reflexivity|]. intros line Hline.
      pose proof (filter_none _ _ Hf (Git.TrimSpace env line)
                    (in_map _ _ _ Hline)) as Hb.
      apply negb_false_iff, String.eqb_eq in Hb. exact Hb.
    + assert (In v (filter (fun line => negb (line =? "")%string)
                      (map (Git.TrimSpace env) (splitOn "010" out)))) as Hin
        by (rewrite Hf; left; reflexivity).
      apply filter_In in Hin as [_ Hne].
      apply negb_true_iff, String.eqb_neq in Hne.
      split; [exact Hne|]. right. split; [reflexivity|].
      destruct (first_kept _ _ _ _ _ Hf) as (before & x & after & Hl & Hb & Hx).
      exists before, x, after. repeat split; [exact Hl | | symmetry; exact Hx].
      intros l Hl'. specialize (Hb l Hl').
      apply negb_false_iff, String.eqb_eq in Hb. exact Hb.
Qed.

Example CommentChar_default : Git.CommentChar sampleGit = Val "#".
Proof. reflexivity. Qed.

Example CommentChar_configured :
  Git.CommentChar (commentGit (newline ++ "  ;" ++ newline ++ "%" ++ newline)) = Val ";".
Proof. reflexivity. Qed.

Example CommentChar_blank :
  Git.CommentChar (commentGit (" " ++ newline)) = Panic "index out of range".
Proof. reflexivity. Qed.

(** X17. A signature that AuthorSignature returns is the header
    [Signed-off-by: ], a name, and an email in angle brackets, neither of
    them empty; the error it returns names the first of [user.name] and
    [user.email] that is neither configured nor, by GIT_AUTHOR_NAME or
    GIT_AUTHOR_EMAIL, in the environment. *)
Theorem AuthorSignature_shape (env : Git.Env) :
  match Git.AuthorSignature env with
  | Val s =>
      exists name email,
        name <> "" /\ email <> ""
        /\ s = "Signed-off-by: " ++ name ++ " <" ++ email ++ ">"
  | Err e =>
      (e = "Can't load git config: user.name"
       /\ Git.Getenv env "GIT_AUTHOR_NAME" = ""
       /\ exists m, Git.gitGetConfig env ["user.name"] = Err m)
      \/ (e = "Can't load git config: user.email"
          /\ Git.Getenv env "GIT_AUTHOR_EMAIL" = ""
          /\ exists m, Git.gitGetConfig env ["user.email"] = Err m)
  | Panic _ => True
  end.
Proof.
  unfold Git.AuthorSignature, Git.authorIdent.
  destruct (Git.gitGetConfig env ["user.name"]) as [n|e|m] eqn:Hn; [| |exact I].
  - pose proof (proj1 (gitGetConfig_Val env _ n Hn)) as Hne.
    destruct (Git.gitGetConfig env ["user.email"]) as [em|e|m] eqn:He; [| |exact I].
    + pose proof (proj1 (gitGetConfig_Val env _ em He)) as Hee.
      exists n, em. auto.
    + destruct (String.eqb_spec (Git.Getenv env "GIT_AUTHOR_EMAIL") "") as [E|E].
      * right. eauto.
      * exists n, (Git.Getenv env "GIT_AUTHOR_EMAIL"). auto.
  - destruct (String.eqb_spec (Git.Getenv env "GIT_AUTHOR_NAME") "") as [E|E].
    + left. eauto.
    + destruct (Git.gitGetConfig env ["user.email"]) as [em|e'|m] eqn:He; [| |exact I].
      * pose proof (proj1 (gitGetConfig_Val env _ em He)) as Hee.
        exists (Git.Getenv env "GIT_AUTHOR_NAME"), em. auto.
      * destruct (String.eqb_spec (Git.Getenv env "GIT_AUTHOR_EMAIL") "") as [E'|E'].
        -- right. eauto.
        -- exists (Git.Getenv env "GIT_AUTHOR_NAME"), (Git.Getenv env "GIT_AUTHOR_EMAIL").
           auto.
Qed.

(** ** Boolean configuration values *)

Lemma digit_value (c : ascii) :
  isDigit c = true ->
  0 <= Z.of_N (N_of_ascii c) - 48 <= 9
  /\ (Ascii.eqb c "0" = false -> 1 <= Z.of_N (N_of_ascii c) - 48).
Proof.
  bytes c; intros _; vm_compute; (split; [split|]); intros; discriminate.
Qed.

Lemma digit_not_letter (c : ascii) :
  isDigit c = true ->
  Ascii.eqb c "t" = false /\ Ascii.eqb c "y" = false /\ Ascii.eqb c "o" = false
  /\ Ascii.eqb c "f" = false /\ Ascii.eqb c "n" = false
  /\ Ascii.eqb c "+" = false /\ Ascii.eqb c "-" = false.
Proof. bytes c; repeat split. Qed.

Lemma digitsValue_digits (ds : string) (acc : Z) :
  forallb_s isDigit ds = true -> 0 <= acc ->
  exists v, digitsValue acc ds = Some v /\ acc <= v.
Proof.
  revert acc. induction ds as [|c r IH]; intros acc Hd Hacc.
  - exists acc. split; [reflexivity | lia].
  - cbn [forallb_s] in Hd. apply andb_true_iff in Hd as [Hc Hr].
    cbn [digitsValue]. rewrite Hc.
    destruct (digit_value c Hc) as [Hv _].
    destruct (IH (acc * 10 + (Z.of_N (N_of_ascii c) - 48)) Hr ltac:(lia))
      as (v & Hv' & Hle).
    exists v. split; [exact Hv' | lia].
Qed.

Lemma numeral_positive (ds : string) :
  forallb_s isDigit ds = true -> ds <> "" -> leadingZero ds = false ->
  exists v, digitsValue 0 ds = Some v /\ 1 <= v.
Proof.
  intros Hd Hne Hz. destruct ds as [|c r]; [contradiction|].
  cbn [forallb_s] in Hd. apply andb_true_iff in Hd as [Hc Hr].
  cbn [leadingZero] in Hz. cbn [digitsValue]. rewrite Hc.
  destruct (digit_value c Hc) as [Hv Hpos]. specialize (Hpos Hz).
  destruct (digitsValue_digits r (0 * 10 + (Z.of_N (N_of_ascii c) - 48)) Hr ltac:(lia))
    as (v & Hv' & Hle).
  exists v. split; [exact Hv' | lia].
Qed.

(** X16. How BoolConfig reads numbers. A value that is a run of digits
    counts as true exactly when it does not start with [0] and is below
    [2^(IntSize-1)]: [01] and numbers beyond the range of [int] are
    false. A run of digits behind a minus sign is always false. *)
Theorem BoolConfig_numeral (env : Git.Env) (name v ds : string) :
  Git.gitGetConfig env [name] = Val v ->
  forallb_s isDigit ds = true -> ds <> "" ->
  (Git.ToLower env v = ds ->
   Git.BoolConfig env name
   = Val (negb (leadingZero ds) && (numeral ds <? 2 ^ (Git.IntSize env - 1))))
  /\ (Git.ToLower env v = "-" ++ ds -> Git.BoolConfig env name = Val false).
Proof.
  intros Hv Hd Hne. unfold Git.BoolConfig. rewrite Hv. cbv zeta.
  destruct ds as [|c r]; [contradiction|].
  pose proof Hd as Hd'. cbn [forallb_s] in Hd'.
  apply andb_true_iff in Hd' as [Hc Hr].
  destruct (digit_not_letter c Hc) as (Ht & Hy & Ho & Hf & Hn & Hplus & Hminus).
  split; intros ->.
  - cbn [String.eqb]. rewrite Ht, Hy, Ho, Hf, Hn. cbn [orb leadingZero].
    destruct (Ascii.eqb c "0") eqn:Hz; [reflexivity|]. cbn [negb andb].
    destruct (numeral_positive (String c r) Hd Hne Hz) as (val & Hval & Hpos).
    unfold Atoi. rewrite Hplus, Hminus. unfold numeral. rewrite Hval.
    destruct (val <? 2 ^ (Git.IntSize env - 1)); [|reflexivity].
    f_equal. apply Z.ltb_lt. lia.
  - cbn [append String.eqb]. cbn [Ascii.eqb Bool.eqb]. cbn [orb].
    destruct (digitsValue_digits (String c r) 0 Hd ltac:(lia)) as (val & Hval & Hpos).
    unfold Atoi. cbn [Ascii.eqb Bool.eqb]. rewrite Hval.
    destruct (val <=? 2 ^ (Git.IntSize env - 1)); [|reflexivity].
    f_equal. apply Z.ltb_ge. lia.
Qed.

Lemma BoolConfig_numeral_witness :
  (Git.ToLower sampleGit "12" = "12" ->
   Git.BoolConfig sampleGit "hub.retries"
   = Val (negb (leadingZero "12") && (numeral "12" <? 2 ^ (Git.IntSize sampleGit - 1))))
  /\ (Git.ToLower sampleGit "12" = "-" ++ "12" ->
      Git.BoolConfig sampleGit "hub.retries" = Val false).
Proof.
  apply (BoolConfig_numeral sampleGit "hub.retries" "12" "12");
    [reflexivity | reflexivity | discriminate].
Defined.

(** ** Running [apply] again and again *)

Lemma apply_queue_length (ctx : Context) (args : Args) :
  length (beforeChain (apply ctx args))
  = (length (beforeChain args)
     + Nat.min 1 (length (filter urlMatch (Params args))))%nat.
Proof.
  destruct (apply_cases ctx args)
    as [[-> Hnone] | (pre & url & post & Hps & Hpre & Hurl & ->)].
  - rewrite (filter_nil_of _ _ Hnone). simpl. lia.
  - cbn [beforeChain]. rewrite Hps, filter_app, !length_app. cbn [filter].
    rewrite Hurl. cbn [length]. lia.
Qed.

(** X9. Run [k] times in a row, [apply] fetches the first [k] URLs of
    the invocation, each once: of [n] parameters on the URL pattern
    [n - k] are left and the queue has grown by [k] commands, and from
    [n] runs on nothing changes any more. *)
Theorem apply_runs (ctx : Context) (args : Args) (k : nat) :
  let n := length (filter urlMatch (Params args)) in
  let after := Nat.iter k (apply ctx) args in
  length (filter urlMatch (Params after)) = (n - k)%nat
  /\ length (beforeChain after) = (length (beforeChain args) + Nat.min k n)%nat
  /\ ((n <= k)%nat -> apply ctx after = after).
Proof.
  cbv zeta. induction k as [|k (IHc & IHq & _)].
  - cbn [Nat.iter nat_rect]. split; [lia|]. split; [lia|]. intros Hn.
    apply apply_unmatched. apply filter_none.
    destruct (filter urlMatch (Params args)); [reflexivity | simpl in Hn; lia].
  - cbn [Nat.iter nat_rect]. fold (Nat.iter k (apply ctx) args).
    set (prev := Nat.iter k (apply ctx) args) in *.
    assert (length (filter urlMatch (Params (apply ctx prev)))
            = (length (filter urlMatch (Params args)) - S k)%nat) as Hc
      by (rewrite apply_url_count, IHc; lia).
    split; [exact Hc|]. split.
    + rewrite apply_queue_length, IHq, IHc. lia.
    + intros Hn. apply apply_unmatched. apply filter_none.
      destruct (filter urlMatch (Params (apply ctx prev))); [reflexivity|].
      simpl in Hc. lia.
Qed.
